(** * surge/ip-security.js: a shallow embedding and its checked properties

    The script probes the current network path through several unreliable
    providers and merges their answers.  This development embeds the
    resolvers of [src/surge/ip-security.js] (risk score, IP type, proxy
    policy, address acquisition, change detection, outbound report, risk
    bucket, one-shot completion) as Rocq functions over an explicit host
    state, and proves the properties the specification states about them.
    A second part embeds the argument parser, the normalizers and the merge
    of the geo answers, and proves further properties of the script.

    Conventions of the embedding:
    - a JavaScript string is the list of its UTF-16 code units ([jstring]);
      [lit] turns a source literal into that list;
    - a JavaScript number is [num]: a rational, an infinity or NaN;
    - provider payloads are JSON values ([value]); [JSON.parse] and
      [JSON.stringify] are host primitives and stay parameters;
    - the host ([$persistentStore], [$httpClient], [$httpAPI], timers) is a
      state [host] holding the store and the trace of host calls, answered
      by an environment [env];
    - the output of [console.log] is not part of the model, but the
      evaluation of its argument is, on the three lines of the risk resolver
      that concatenate a parsed JSON value: turning such a value into text
      raises a TypeError for an object that carries its own [toString]
      member ([log]).  Every other log line of the functions embedded here
      concatenates literals and strings only. *)

From Stdlib Require Import QArith.
From stdpp Require Import gmap list fin_maps.
From Stdlib Require Import String Ascii.

Close Scope Q_scope.
Set Warnings "-register-all".
Local Open Scope N_scope.
Local Open Scope list_scope.

(* ================================================================== *)
(** ** Strings: UTF-16 code units *)
(* ================================================================== *)

Module JStr.

Definition jstring := list N.

Definition bytes_of (s : string) : list N :=
  map N_of_ascii (list_ascii_of_string s).

(** Code points of a UTF-8 byte sequence (source literals are well formed). *)
Fixpoint utf8_decode (bs : list N) : list N :=
  match bs with
  | [] => []
  | b0 :: r0 =>
    if b0 <? 128 then b0 :: utf8_decode r0
    else if b0 <? 224 then
      match r0 with
      | b1 :: r1 => ((b0 mod 32) * 64 + b1 mod 64) :: utf8_decode r1
      | _ => []
      end
    else if b0 <? 240 then
      match r0 with
      | b1 :: b2 :: r2 =>
        ((b0 mod 16) * 4096 + (b1 mod 64) * 64 + b2 mod 64) :: utf8_decode r2
      | _ => []
      end
    else
      match r0 with
      | b1 :: b2 :: b3 :: r3 =>
        ((b0 mod 8) * 262144 + (b1 mod 64) * 4096 + (b2 mod 64) * 64 + b3 mod 64)
          :: utf8_decode r3
      | _ => []
      end
  end.

(** UTF-16 code units of one code point. *)
Definition units_of_codepoint (cp : N) : list N :=
  if cp <? 65536 then [cp]
  else [55296 + (cp - 65536) / 1024; 56320 + (cp - 65536) mod 1024].

(** A source string literal as a JavaScript string. *)
Definition lit (s : string) : jstring :=
  flat_map units_of_codepoint (utf8_decode (bytes_of s)).

Fixpoint eqb (a b : jstring) : bool :=
  match a, b with
  | [], [] => true
  | x :: a', y :: b' => (x =? y) && eqb a' b'
  | _, _ => false
  end.

Fixpoint starts_with (p s : jstring) : bool :=
  match p, s with
  | [], _ => true
  | x :: p', y :: s' => (x =? y) && starts_with p' s'
  | _ :: _, [] => false
  end.

(** [s.includes(p)] *)
Fixpoint includes (p s : jstring) : bool :=
  starts_with p s ||
  match s with
  | [] => false
  | _ :: s' => includes p s'
  end.

(** ASCII case folding, the only folding an [/i] pattern without the
    [u] flag applies between ASCII letters and other code units. *)
Definition upper (c : N) : N :=
  if (97 <=? c) && (c <=? 122) then c - 32 else c.

Fixpoint starts_with_ci (p s : jstring) : bool :=
  match p, s with
  | [], _ => true
  | x :: p', y :: s' => (upper x =? upper y) && starts_with_ci p' s'
  | _ :: _, [] => false
  end.

Fixpoint includes_ci (p s : jstring) : bool :=
  starts_with_ci p s ||
  match s with
  | [] => false
  | _ :: s' => includes_ci p s'
  end.

Definition is_digit (c : N) : bool := (48 <=? c) && (c <=? 57).

(** [s.split(sep)] for a one-unit separator. *)
Fixpoint split (sep : N) (s : jstring) : list jstring :=
  match s with
  | [] => [[]]
  | c :: s' =>
    if c =? sep then [] :: split sep s'
    else match split sep s' with
         | [] => [[c]]
         | p :: ps => (c :: p) :: ps
         end
  end.

(** [parts.join(sep)] on strings. *)
Fixpoint join (sep : jstring) (parts : list jstring) : jstring :=
  match parts with
  | [] => []
  | [p] => p
  | p :: ps => p ++ sep ++ join sep ps
  end.

End JStr.
Export JStr.

(* ================================================================== *)
(** ** Numbers *)
(* ================================================================== *)

Module Num.

(** A JavaScript number: NaN, an infinity, or a finite value (every finite
    double is a rational). *)
Inductive num :=
| NaN
| Inf (negative : bool)
| Fin (q : Q).

Definition of_N (n : N) : num := Fin (inject_Z (Z.of_N n)).
Definition of_Z (z : Z) : num := Fin (inject_Z z).

(** [a <= b] on numbers; any comparison with NaN is false. *)
Definition leb (a b : num) : bool :=
  match a, b with
  | NaN, _ | _, NaN => false
  | Inf true, _ => true
  | _, Inf false => true
  | Inf false, _ => false
  | _, Inf true => false
  | Fin x, Fin y => Qle_bool x y
  end.

(** [a < b] *)
Definition ltb (a b : num) : bool :=
  match a, b with
  | NaN, _ | _, NaN => false
  | Inf true, Inf true => false
  | Inf true, _ => true
  | Inf false, _ => false
  | Fin _, Inf false => true
  | Fin _, Inf true => false
  | Fin x, Fin y => negb (Qle_bool y x)
  end.

(** [a === b] on numbers. *)
Definition eqb (a b : num) : bool :=
  match a, b with
  | Inf s, Inf t => Bool.eqb s t
  | Fin x, Fin y => Qeq_bool x y
  | _, _ => false
  end.

(** ToBoolean on numbers: false for NaN and zero. *)
Definition truthy (a : num) : bool :=
  match a with
  | NaN => false
  | Inf _ => true
  | Fin q => negb (Qeq_bool q 0%Q)
  end.

End Num.
Export Num(num, NaN, Inf, Fin).

(* ================================================================== *)
(** ** JSON values *)
(* ================================================================== *)

Inductive value :=
| VUndefined
| VNull
| VBool (b : bool)
| VNum (n : num)
| VStr (s : jstring)
| VArr (elems : list value)
| VObj (props : list (jstring * value)).

(** ToBoolean *)
Definition truthy (v : value) : bool :=
  match v with
  | VUndefined | VNull => false
  | VBool b => b
  | VNum n => Num.truthy n
  | VStr s => match s with [] => false | _ => true end
  | VArr _ | VObj _ => true
  end.

Definition is_undefined (v : value) : bool :=
  match v with VUndefined => true | _ => false end.

Definition is_null (v : value) : bool :=
  match v with VNull => true | _ => false end.

Definition nullish (v : value) : bool := is_undefined v || is_null v.

(** [a === b].  Arrays and objects compare by reference; every comparison
    of the script is between values of two different [JSON.parse] results
    (or a literal), so two arrays or objects are never the same reference. *)
Definition strict_eq (a b : value) : bool :=
  match a, b with
  | VUndefined, VUndefined => true
  | VNull, VNull => true
  | VBool x, VBool y => Bool.eqb x y
  | VNum x, VNum y => Num.eqb x y
  | VStr x, VStr y => JStr.eqb x y
  | _, _ => false
  end.

(** [a || b] *)
Definition or_else (a b : value) : value := if truthy a then a else b.

Fixpoint assoc (k : jstring) (ps : list (jstring * value)) : value :=
  match ps with
  | [] => VUndefined
  | (k', v) :: ps' => if JStr.eqb k k' then v else assoc k ps'
  end.

Fixpoint digits_value (acc : N) (s : jstring) : option N :=
  match s with
  | [] => Some acc
  | c :: s' => if is_digit c then digits_value (10 * acc + (c - 48)) s' else None
  end.

(** A property key that is a canonical array index: [0], or digits
    without a leading zero. *)
Definition index_of_key (k : jstring) : option nat :=
  match k with
  | [] => None
  | [c] => if is_digit c then Some (N.to_nat (c - 48)) else None
  | c :: _ => if c =? 48 then None else option_map N.to_nat (digits_value 0 k)
  end.

(** [v[k]] for a value [v] that is neither null nor undefined: own
    properties of objects, indices and [length] of arrays and strings.
    Inherited members (methods of the prototypes) are functions; the script
    only ever reads such a result through [?.risk], which is undefined for
    them as it is for [VUndefined]. *)
Definition get (v : value) (k : jstring) : value :=
  match v with
  | VObj ps => assoc k ps
  | VArr l =>
    if JStr.eqb k (lit "length") then VNum (Num.of_N (N.of_nat (List.length l)))
    else match index_of_key k with
         | Some i => nth i l VUndefined
         | None => VUndefined
         end
  | VStr s =>
    if JStr.eqb k (lit "length") then VNum (Num.of_N (N.of_nat (List.length s)))
    else match index_of_key k with
         | Some i => match nth_error s i with
                     | Some c => VStr [c]
                     | None => VUndefined
                     end
         | None => VUndefined
         end
  | _ => VUndefined
  end.

(** [v?.k] *)
Definition opt_get (v : value) (k : jstring) : value :=
  if nullish v then VUndefined else get v k.


(* ================================================================== *)
(** ** The host: persistent store, HTTP client, traffic log, timers *)
(* ================================================================== *)

(** Script arguments as [parseArguments] returns them. *)
Record args := {
  isEvent : bool;
  ipqsKey : jstring;
  lang : jstring;
  maskIP_arg : bool;
  eventDelay : num
}.

(** One entry of [/v1/requests/recent]. *)
Record request := {
  URL : jstring;
  policyName : jstring
}.

(** What the outside world answers during one run.
    - [JSON_parse s] is [None] when [JSON.parse(s)] raises;
    - [http_get policy url] is the body handed to the callback of
      [$httpClient.get], [None] when there is none;
    - [recent_requests n] is the [requests] list of the answer to the
      [n]-th query of [/v1/requests/recent] in this run (newest first),
      [None] when the answer or the list is missing;
    - [v6_in_time] tells whether the v6 answer arrives before the timer. *)
Record env := {
  JSON_parse : jstring -> option value;
  JSON_stringify : value -> jstring;
  script_args : args;
  http_get : option jstring -> jstring -> option jstring;
  recent_requests : nat -> option (list request);
  v6_in_time : bool
}.

Inductive event :=
| EvHttp (url : jstring) (policy : option jstring)
| EvStoreWrite (data key : jstring)
| EvRecent
| EvWait (ms : N).

Record host := {
  store : gmap jstring jstring;
  trace : list event
}.

Definition is_recent (e : event) : bool :=
  match e with EvRecent => true | _ => false end.

(** How many times the traffic log has been queried so far. *)
Definition recent_count (h : host) : nat :=
  List.length (List.filter is_recent (trace h)).

Definition is_http (e : event) : bool :=
  match e with EvHttp _ _ => true | _ => false end.

Definition is_write (e : event) : bool :=
  match e with EvStoreWrite _ _ => true | _ => false end.

Inductive error := TypeError | SyntaxError.

Inductive result (A : Type) :=
| Ok (a : A)
| Throw (e : error).
Arguments Ok {A} a.
Arguments Throw {A} e.

(** Host computations: state passing with exceptions. *)
Definition M (A : Type) := host -> result A * host.

Definition ret {A} (a : A) : M A := fun h => (Ok a, h).

Definition throw {A} (e : error) : M A := fun h => (Throw e, h).

Definition bind {A B} (m : M A) (f : A -> M B) : M B :=
  fun h => match m h with
           | (Ok a, h') => f a h'
           | (Throw e, h') => (Throw e, h')
           end.

Notation "'let*' x ':=' m 'in' k" := (bind m (fun x => k))
  (at level 10, x name, m at level 100, k at level 200).
Notation "'run' m 'in' k" := (bind m (fun _ => k))
  (at level 10, m at level 100, k at level 200).

Definition emit (e : event) : M unit :=
  fun h => (Ok tt, {| store := store h; trace := trace h ++ [e] |}).

(** [$persistentStore.read(key)] *)
Definition store_read (key : jstring) : M (option jstring) :=
  fun h => (Ok (store h !! key), h).

(** [$persistentStore.write(data, key)] *)
Definition store_write (data key : jstring) : M unit :=
  fun h => (Ok tt, {| store := <[key := data]> (store h);
                      trace := trace h ++ [EvStoreWrite data key] |}).

(** A string read from the store, as a condition: absent and empty are
    falsy. *)
Definition nonempty (s : option jstring) : option jstring :=
  match s with
  | Some (c :: r) => Some (c :: r)
  | _ => None
  end.

(* ================================================================== *)
(** ** CONFIG *)
(* ================================================================== *)

Module CONFIG.

Definition name := lit "ip-security".
Definition timeout : N := 10000.

Definition lastEvent := lit "lastNetworkInfoEvent".
Definition lastPolicy := lit "lastProxyPolicy".
Definition riskCache := lit "riskScoreCache".

Definition inboundIP := lit "https://api.bilibili.com/x/web-interface/zone".
Definition outboundIP := lit "https://api-ipv4.ip.sb/geoip".
Definition outboundIPv6 := lit "https://api-ipv6.ip.sb/geoip".
Definition ipType := lit "https://my.ippure.com/v1/info".
Definition ipTypeCard := lit "https://my.ippure.com/v1/card".
Definition ipqs (key ip : jstring) :=
  lit "https://ipqualityscore.com/api/json/ip/" ++ key ++ lit "/" ++ ip
    ++ lit "?strictness=1".
Definition proxyCheck (ip : jstring) :=
  lit "https://proxycheck.io/v2/" ++ ip ++ lit "?risk=1&vpn=1".
Definition scamalytics (ip : jstring) :=
  lit "https://scamalytics.com/ip/" ++ ip.

Definition ipv6Timeout : N := 3000.
Definition policyRetryDelay : N := 500.

Record level := {
  max : num;
  label : jstring;
  color : jstring
}.

Definition riskLevels : list level := [
  {| max := Num.of_N 15;  label := lit "極度純淨 IP"; color := lit "#0D6E3D" |};
  {| max := Num.of_N 25;  label := lit "純淨 IP";     color := lit "#2E9F5E" |};
  {| max := Num.of_N 40;  label := lit "一般 IP";     color := lit "#8BC34A" |};
  {| max := Num.of_N 50;  label := lit "微風險 IP";   color := lit "#FFC107" |};
  {| max := Num.of_N 70;  label := lit "一般風險 IP"; color := lit "#FF9800" |};
  {| max := Num.of_N 100; label := lit "極度風險 IP"; color := lit "#F44336" |}
].

End CONFIG.

(* ================================================================== *)
(** ** Global completion guard *)
(* ================================================================== *)

(** [finished] is the script's flag; [emitted] lists the arguments [$done]
    was invoked with, oldest first. *)
Record completion := {
  finished : bool;
  emitted : list value
}.

Definition start : completion := {| finished := false; emitted := [] |}.

Definition done (o : value) (st : completion) : completion :=
  if finished st then st
  else {| finished := true; emitted := emitted st ++ [o] |}.

(** The calls to [done] of one run, in the order they happen. *)
Definition run_done (calls : list value) (st : completion) : completion :=
  fold_left (fun s o => done o s) calls st.

(* ================================================================== *)
(** ** Data helpers *)
(* ================================================================== *)

Record risk_text := {
  rt_label : jstring;
  rt_color : jstring
}.

(** [riskText(score)] for a numeric score.  [find] yields the first level
    with [score <= l.max]; [at(-1)] is the last level. *)
Definition riskText (score : num) : result risk_text :=
  let level :=
    match find (fun l => Num.leb score (CONFIG.max l)) CONFIG.riskLevels with
    | Some l => Some l
    | None => last CONFIG.riskLevels
    end in
  match level with
  | Some l => Ok {| rt_label := CONFIG.label l; rt_color := CONFIG.color l |}
  | None => Throw TypeError
  end.

(** The text of the last level. *)
Definition last_level_text : risk_text :=
  {| rt_label := lit "極度風險 IP"; rt_color := lit "#F44336" |}.

(** [html?.match(/Fraud Score[^0-9]*([0-9]{1,3})/i)]: the pattern is tried
    at every start position from the left.  At a position where the words
    match, the greedy [[^0-9]*] runs to the first digit (giving back units
    can only end on a unit that is not a digit), and the group takes up to
    three digits. *)
Fixpoint skip_non_digits (s : jstring) : jstring :=
  match s with
  | [] => []
  | c :: s' => if is_digit c then s else skip_non_digits s'
  end.

Fixpoint take_digits (n : nat) (s : jstring) : jstring :=
  match n, s with
  | S n', c :: s' => if is_digit c then c :: take_digits n' s' else []
  | _, _ => []
  end.

Definition fraud_score_here (s : jstring) : option jstring :=
  if starts_with_ci (lit "Fraud Score") s then
    match take_digits 3 (skip_non_digits (drop 11 s)) with
    | [] => None
    | ds => Some ds
    end
  else None.

Fixpoint fraud_score_match (s : jstring) : option jstring :=
  match fraud_score_here s with
  | Some ds => Some ds
  | None => match s with
            | [] => None
            | _ :: s' => fraud_score_match s'
            end
  end.

(** [Number(m[1])] on a run of decimal digits. *)
Definition number_of_digits (ds : jstring) : num :=
  Num.of_N (fold_left (fun acc c => 10 * acc + (c - 48)) ds 0).

(** [parseScamalyticsScore(html)]; [None] stands for [null], both as the
    argument and as the result. *)
Definition parseScamalyticsScore (html : option jstring) : option num :=
  match html with
  | None => None
  | Some s => option_map number_of_digits (fraud_score_match s)
  end.

(* ================================================================== *)
(** ** Host-dependent functions *)
(* ================================================================== *)

Section Script.

Variable E : env.

(** [$httpClient.get] and the body it hands to the callback. *)
Definition http_body (url : jstring) (policy : option jstring)
  : M (option jstring) :=
  run emit (EvHttp url policy) in
  ret (http_get E policy url).

(** [try { r(JSON.parse(d)); } catch { r(null); }]; [JSON.parse] of a
    missing body raises too. *)
Definition parse_body (d : option jstring) : value :=
  match d with
  | Some s => match JSON_parse E s with
              | Some v => v
              | None => VNull
              end
  | None => VNull
  end.

(** [httpJSON(url, policy)] *)
Definition httpJSON (url : jstring) (policy : option jstring) : M value :=
  let* d := http_body url policy in
  ret (parse_body d).

(** [httpRaw(url)]: [d || null]; [None] stands for [null]. *)
Definition httpRaw (url : jstring) : M (option jstring) :=
  let* d := http_body url None in
  ret (nonempty d).

(** [wait(ms)] *)
Definition wait (ms : N) : M unit := emit (EvWait ms).

(** [surgeAPI("GET", "/v1/requests/recent")], reduced to [res?.requests]. *)
Definition surgeAPI_recent : M (option (list request)) :=
  fun h =>
    (Ok (recent_requests E (recent_count h)),
     {| store := store h; trace := trace h ++ [EvRecent] |}).

(* ------------------------------------------------------------------ *)
(** *** Proxy policy *)

(** [/(api(-ipv4)?\.ip\.sb|ipinfo\.io)/i.test(url)] *)
Definition probe_pattern (url : jstring) : bool :=
  includes_ci (lit "api.ip.sb") url
  || includes_ci (lit "api-ipv4.ip.sb") url
  || includes_ci (lit "ipinfo.io") url.

(** [res?.requests?.slice(0, limit).find(i => pattern.test(i.URL))] and
    then [hit?.policyName || null]; [None] stands for [null]. *)
Definition policy_in (pattern : jstring -> bool) (limit : nat)
    (res : option (list request)) : option jstring :=
  let hit :=
    match res with
    | Some requests => find (fun i => pattern (URL i)) (take limit requests)
    | None => None
    end in
  nonempty (option_map policyName hit).

(** [findPolicyInRecent(pattern, limit)] *)
Definition findPolicyInRecent (pattern : jstring -> bool) (limit : nat)
  : M (option jstring) :=
  let* res := surgeAPI_recent in
  ret (policy_in pattern limit res).

Definition getPolicy : M jstring :=
  let* policy := findPolicyInRecent probe_pattern 10 in
  match policy with
  | Some policy =>
    run store_write policy CONFIG.lastPolicy in
    ret policy
  | None =>
    run wait CONFIG.policyRetryDelay in
    let* policy := findPolicyInRecent probe_pattern 5 in
    match policy with
    | Some policy =>
      run store_write policy CONFIG.lastPolicy in
      ret policy
    | None =>
      let* lastPolicy := store_read CONFIG.lastPolicy in
      match nonempty lastPolicy with
      | Some lastPolicy => ret lastPolicy
      | None => ret (lit "Unknown")
      end
    end
  end.

(** The host after [evs] happened and [p] was persisted as last policy,
    and after [evs] happened with no write. *)
Definition persist_policy (p : jstring) (evs : list event) (h : host) : host :=
  {| store := <[CONFIG.lastPolicy := p]> (store h);
     trace := trace h ++ evs ++ [EvStoreWrite p CONFIG.lastPolicy] |}.

Definition observe (evs : list event) (h : host) : host :=
  {| store := store h; trace := trace h ++ evs |}.

(* ------------------------------------------------------------------ *)
(** *** Risk score *)

Record risk := {
  score : value;
  source : value
}.

(** The object [{ ip, score, source }] that is persisted. *)
Definition cache_entry (ip : jstring) (score source : value) : value :=
  VObj [(lit "ip", VStr ip); (lit "score", score); (lit "source", source)].

(** An own member named [toString] of a parsed object.  Its value is JSON
    data, so it is never callable. *)
Definition own_toString (props : list (jstring * value)) : bool :=
  existsb (fun p => JStr.eqb (fst p) (lit "toString")) props.

(** Whether [text + v] can turn [v] into text.  A primitive always can.  An
    object is asked for [valueOf] (which gives the object back) and then for
    [toString]: the inherited one answers, an own one cannot be called and
    the conversion raises.  An array joins the texts of its elements. *)
Fixpoint printable (v : value) : bool :=
  match v with
  | VArr elems => forallb printable elems
  | VObj props => negb (own_toString props)
  | _ => true
  end.

(** [console.log(text + v1 + text + v2 ...)]: the values concatenated into
    the line, in order.  Only the conversion can be observed. *)
Definition log (logged : list value) : result unit :=
  if forallb printable logged then Ok tt else Throw TypeError.

Definition console_log (logged : list value) : M unit :=
  fun h => (log logged, h).

(** The body of the [try] block of the cache check: [Ok (Some r)] when it
    returns [r], [Ok None] when it falls through. *)
Definition cache_try (cached ip : jstring) : result (option risk) :=
  match JSON_parse E cached with
  | None => Throw SyntaxError
  | Some c =>
    if nullish c then Throw TypeError
    else if strict_eq (get c (lit "ip")) (VStr ip)
    then
      match log [get c (lit "score"); get c (lit "source")] with
      | Ok _ => Ok (Some {| score := get c (lit "score");
                            source := get c (lit "source") |})
      | Throw e => Throw e
      end
    else Ok None
  end.

(** The cache check with its empty [catch]. *)
Definition cache_check (cached : option jstring) (ip : jstring)
  : option risk :=
  match nonempty cached with
  | Some cached =>
    match cache_try cached ip with
    | Ok r => r
    | Throw _ => None
    end
  | None => None
  end.

Definition saveAndReturn (ip : jstring) (score : value) (source : jstring)
  : M risk :=
  run store_write (JSON_stringify E (cache_entry ip score (VStr source)))
                  CONFIG.riskCache in
  run console_log [score; VStr source] in
  ret {| score := score; source := VStr source |}.

(** Tier 1: [data?.success && data?.fraud_score !== undefined], and then
    [data.fraud_score]. *)
Definition ipqs_score (data : value) : option value :=
  if truthy (opt_get data (lit "success"))
     && negb (is_undefined (opt_get data (lit "fraud_score")))
  then Some (get data (lit "fraud_score"))
  else None.

(** Tier 2: [proxyData?.[ip]?.risk !== undefined], and then
    [proxyData[ip].risk]. *)
Definition proxycheck_score (proxyData : value) (ip : jstring)
  : option value :=
  if negb (is_undefined (opt_get (opt_get proxyData ip) (lit "risk")))
  then Some (get (get proxyData ip) (lit "risk"))
  else None.

(** The code after the IPQS block: tiers 2 and 3, requested together. *)
Definition tiers23 (ip : jstring) : M risk :=
  let* proxyData := httpJSON (CONFIG.proxyCheck ip) None in
  let* scamHtml := httpRaw (CONFIG.scamalytics ip) in
  match proxycheck_score proxyData ip with
  | Some risk => saveAndReturn ip risk (lit "ProxyCheck")
  | None =>
    match parseScamalyticsScore scamHtml with
    | Some score => saveAndReturn ip (VNum score) (lit "Scamalytics")
    | None => saveAndReturn ip (VNum (Num.of_N 50)) (lit "Default")
    end
  end.

(** The values the IPQS fall-back line concatenates:
    [data ? "success=" + data.success + " message=" + (data.message || "")
          : "..."]. *)
Definition ipqs_fallback_logged (data : value) : list value :=
  if truthy data
  then [get data (lit "success"); or_else (get data (lit "message")) (VStr [])]
  else [].

Definition getRiskScore (ip : jstring) : M risk :=
  let* cached := store_read CONFIG.riskCache in
  match cache_check cached ip with
  | Some r => ret r
  | None =>
    match ipqsKey (script_args E) with
    | _ :: _ =>
      let* data := httpJSON (CONFIG.ipqs (ipqsKey (script_args E)) ip) None in
      match ipqs_score data with
      | Some fraud_score => saveAndReturn ip fraud_score (lit "IPQS")
      | None =>
        run console_log (ipqs_fallback_logged data) in
        tiers23 ip
      end
    | [] => tiers23 ip
    end
  end.

(** The provider answers of one run, as [getRiskScore ip] receives them. *)
Definition ipqs_answer (ip : jstring) : value :=
  parse_body (http_get E None (CONFIG.ipqs (ipqsKey (script_args E)) ip)).

Definition proxycheck_answer (ip : jstring) : value :=
  parse_body (http_get E None (CONFIG.proxyCheck ip)).

Definition scamalytics_answer (ip : jstring) : option jstring :=
  nonempty (http_get E None (CONFIG.scamalytics ip)).

(** What tiers 2 and 3 resolve to, from the answers alone. *)
Definition resolved23 (ip : jstring) : risk :=
  match proxycheck_score (proxycheck_answer ip) ip with
  | Some risk => {| score := risk; source := VStr (lit "ProxyCheck") |}
  | None =>
    match parseScamalyticsScore (scamalytics_answer ip) with
    | Some n => {| score := VNum n; source := VStr (lit "Scamalytics") |}
    | None => {| score := VNum (Num.of_N 50); source := VStr (lit "Default") |}
    end
  end.

(** What a cache miss resolves to, and the requests it makes. *)
Definition resolved (ip : jstring) : risk * list event :=
  let ipqs := EvHttp (CONFIG.ipqs (ipqsKey (script_args E)) ip) None in
  let both := [EvHttp (CONFIG.proxyCheck ip) None;
               EvHttp (CONFIG.scamalytics ip) None] in
  match ipqsKey (script_args E) with
  | _ :: _ =>
    match ipqs_score (ipqs_answer ip) with
    | Some fraud_score =>
      ({| score := fraud_score; source := VStr (lit "IPQS") |}, [ipqs])
    | None => (resolved23 ip, ipqs :: both)
    end
  | [] => (resolved23 ip, both)
  end.

(** What [saveAndReturn] hands back after its write: the line it logs
    concatenates the score. *)
Definition saved (r : risk) : result risk :=
  if printable (score r) then Ok r else Throw TypeError.

(** Whether a miss gets past the IPQS fall-back line: there is none without
    a key or when IPQS gave a score. *)
Definition fallback_renders (ip : jstring) : bool :=
  match ipqsKey (script_args E) with
  | _ :: _ =>
    match ipqs_score (ipqs_answer ip) with
    | Some _ => true
    | None => forallb printable (ipqs_fallback_logged (ipqs_answer ip))
    end
  | [] => true
  end.

(** A score that is a number within 0..100. *)
Definition score_in_range (v : value) : Prop :=
  exists n, v = VNum n
            /\ Num.leb (Num.of_N 0) n = true
            /\ Num.leb n (Num.of_N 100) = true.

(** The codec gives back the value it wrote, as a non-empty text. *)
Definition codec_faithful_on (v : value) : Prop :=
  JSON_stringify E v <> [] /\ JSON_parse E (JSON_stringify E v) = Some v.

(** The host after [evs] happened and the entry of [r] was cached. *)
Definition cached_host (ip : jstring) (r : risk) (evs : list event)
    (h : host) : host :=
  let data := JSON_stringify E (cache_entry ip (score r) (source r)) in
  {| store := <[CONFIG.riskCache := data]> (store h);
     trace := trace h ++ evs ++ [EvStoreWrite data CONFIG.riskCache] |}.

(* ------------------------------------------------------------------ *)
(** *** IP type *)

Record ip_type := {
  ipType : jstring;
  ipSrc : jstring
}.

(** [/住宅|[Rr]esidential/.test(html)] *)
Definition residential_pattern (html : jstring) : bool :=
  includes (lit "住宅") html
  || includes (lit "Residential") html
  || includes (lit "residential") html.

(** [/廣播|[Bb]roadcast|[Aa]nnounced/.test(html)] *)
Definition broadcast_pattern (html : jstring) : bool :=
  includes (lit "廣播") html
  || includes (lit "Broadcast") html
  || includes (lit "broadcast") html
  || includes (lit "Announced") html
  || includes (lit "announced") html.

Definition getIPType : M ip_type :=
  let* info := httpJSON CONFIG.ipType None in
  if truthy info && negb (is_undefined (get info (lit "isResidential")))
  then
    ret {| ipType := if truthy (get info (lit "isResidential"))
                     then lit "住宅 IP" else lit "機房 IP";
           ipSrc := if truthy (get info (lit "isBroadcast"))
                    then lit "廣播 IP" else lit "原生 IP" |}
  else
    let* html := httpRaw CONFIG.ipTypeCard in
    match html with
    | Some html =>
      ret {| ipType := if residential_pattern html
                       then lit "住宅 IP" else lit "機房 IP";
             ipSrc := if broadcast_pattern html
                      then lit "廣播 IP" else lit "原生 IP" |}
    | None => ret {| ipType := lit "未知"; ipSrc := lit "未知" |}
    end.

(* ------------------------------------------------------------------ *)
(** *** Address acquisition *)

Record addresses := {
  inIP : value;
  outIP : value;
  outIPv6 : value;
  inRaw : value;
  outRaw : value;
  v6Raw : value
}.

(** [v.includes(":")] for a truthy [v]: the string method on strings, the
    array method on arrays (an element that is the string [":"]); any other
    value has no callable [includes]. *)
Definition includes_colon (v : value) : result bool :=
  match v with
  | VStr s => Ok (includes (lit ":") s)
  | VArr l => Ok (existsb (fun x => strict_eq x (VStr (lit ":"))) l)
  | _ => Throw TypeError
  end.

(** [Promise.race([httpJSON(...), wait(...).then(() => null)])] once both
    have been started. *)
Definition race_v6 (answer6 : value) : value :=
  if v6_in_time E then answer6 else VNull.

Definition fetchIPs : M addresses :=
  let* enter := httpJSON CONFIG.inboundIP (Some (lit "DIRECT")) in
  let* exit := httpJSON CONFIG.outboundIP None in
  let* answer6 := httpJSON CONFIG.outboundIPv6 None in
  run wait CONFIG.ipv6Timeout in
  let exit6 := race_v6 answer6 in
  let v6ip := opt_get exit6 (lit "ip") in
  let* hasIPv6 :=
    (if truthy v6ip
     then match includes_colon v6ip with
          | Ok b => ret b
          | Throw e => throw e
          end
     else ret false) in
  ret {| inIP := or_else (opt_get (opt_get enter (lit "data")) (lit "addr")) VNull;
         outIP := or_else (opt_get exit (lit "ip")) VNull;
         outIPv6 := if hasIPv6 then v6ip else VNull;
         inRaw := enter;
         outRaw := exit;
         v6Raw := if hasIPv6 then exit6 else VNull |}.

(* ------------------------------------------------------------------ *)
(** *** Change detection *)

(** The object [{ inIP, outIP, outIP6: outIPv6 }] that is persisted. *)
Definition snapshot (inIP outIP outIPv6 : value) : value :=
  VObj [(lit "inIP", inIP); (lit "outIP", outIP); (lit "outIP6", outIPv6)].

(** [lastData] after the guarded [JSON.parse]. *)
Definition last_data (lastEvent : option jstring) : value :=
  match nonempty lastEvent with
  | Some s => match JSON_parse E s with
              | Some v => v
              | None => VObj []
              end
  | None => VObj []
  end.

Definition checkIPChange (inIP outIP outIPv6 : value) : M bool :=
  if negb (isEvent (script_args E)) then ret true
  else
    let* lastEvent := store_read CONFIG.lastEvent in
    let lastData := last_data lastEvent in
    if nullish lastData then throw TypeError
    else if strict_eq inIP (get lastData (lit "inIP"))
            && strict_eq outIP (get lastData (lit "outIP"))
            && strict_eq outIPv6 (get lastData (lit "outIP6"))
    then ret false
    else
      run store_write (JSON_stringify E (snapshot inIP outIP outIPv6))
                      CONFIG.lastEvent in
      ret true.

(** The v6 answer as [fetchIPs] sees it after the race. *)
Definition v6_answer : value :=
  race_v6 (parse_body (http_get E None CONFIG.outboundIPv6)).

(** The comparison of [checkIPChange] against the persisted snapshot. *)
Definition unchanged (inIP outIP outIPv6 : value) (h : host) : bool :=
  let lastData := last_data (store h !! CONFIG.lastEvent) in
  strict_eq inIP (get lastData (lit "inIP"))
  && strict_eq outIP (get lastData (lit "outIP"))
  && strict_eq outIPv6 (get lastData (lit "outIP6")).

(** The host after the snapshot was persisted. *)
Definition snapshot_host (inIP outIP outIPv6 : value) (h : host) : host :=
  let data := JSON_stringify E (snapshot inIP outIP outIPv6) in
  {| store := <[CONFIG.lastEvent := data]> (store h);
     trace := trace h ++ [EvStoreWrite data CONFIG.lastEvent] |}.

End Script.

(* ================================================================== *)
(** ** Outbound report *)
(* ================================================================== *)

(** A field of a canonical geo record: a string, [null] or absent. *)
Inductive text :=
| TUndefined
| TNull
| TStr (s : jstring).



Definition text_truthy (t : text) : option jstring :=
  match t with
  | TStr (c :: r) => Some (c :: r)
  | _ => None
  end.


(** [flag(cc)] *)
Definition flag (cc : text) : jstring :=
  match text_truthy cc with
  | Some [c0; c1] =>
    let cc := if JStr.eqb (map upper [c0; c1]) (lit "TW") then lit "CN"
              else [c0; c1] in
    let b := 127462 in
    flat_map units_of_codepoint
             (map (fun c => b + c - 65) cc)
  | _ => []
  end.

(** [maskIP(ip)] on a string. *)
Definition maskIP (ip : jstring) : jstring :=
  match ip with
  | [] => ip
  | _ =>
    if includes (lit ":") ip then
      let parts := split 58 ip in
      if (List.length parts <=? 2)%nat then ip
      else nth 0 parts [] ++ lit ":"
           ++ join (lit ":")
                (map (fun _ => lit "*")
                     (removelast (List.tl parts)))
           ++ lit ":" ++ List.last parts []
    else
      let parts := split 46 ip in
      if negb (List.length parts =? 4)%nat then ip
      else nth 0 parts [] ++ lit ".*.*." ++ nth 3 parts []
  end.


Section Report.

Variables (isZh isMask : bool).


Definition m (ip : jstring) : jstring :=
  if isMask then maskIP ip else ip.





End Report.

(* ================================================================== *)
(** ** A reference JSON codec

    A small serializer and parser for the JSON subset the script exchanges
    (null, booleans, integers, strings, arrays, objects).  It instantiates
    the [JSON_parse] and [JSON_stringify] parameters wherever a property is
    exercised on concrete data. *)
(* ================================================================== *)

Module MiniJSON.

Fixpoint digits_of (fuel : nat) (n : N) (acc : jstring) : jstring :=
  match fuel with
  | O => acc
  | S f =>
    let acc' := (48 + n mod 10) :: acc in
    if n <? 10 then acc' else digits_of f (n / 10) acc'
  end.

Definition decimal (n : N) : jstring := digits_of (S (N.to_nat (N.log2 n))) n [].

Definition write_num (n : num) : jstring :=
  match n with
  | Fin (Qmake z 1) =>
    match z with
    | Zneg p => 45 :: decimal (Npos p)
    | _ => decimal (Z.to_N z)
    end
  | _ => lit "null"
  end.

Definition write_string (s : jstring) : jstring :=
  34 :: flat_map (fun c => if (c =? 34) || (c =? 92) then [92; c] else [c]) s
     ++ [34].

Fixpoint stringify (v : value) : jstring :=
  match v with
  | VUndefined | VNull => lit "null"
  | VBool true => lit "true"
  | VBool false => lit "false"
  | VNum n => write_num n
  | VStr s => write_string s
  | VArr l => 91 :: join [44] (map stringify l) ++ [93]
  | VObj ps =>
    123 :: join [44] (map (fun p => write_string (fst p) ++ 58 :: stringify (snd p)) ps)
        ++ [125]
  end.

Fixpoint skip_ws (s : jstring) : jstring :=
  match s with
  | c :: s' => if (c =? 32) || (c =? 9) || (c =? 10) || (c =? 13)
               then skip_ws s' else s
  | [] => []
  end.

(** The characters of a string literal after its opening quote. *)
Fixpoint read_string (s : jstring) : option (jstring * jstring) :=
  match s with
  | [] => None
  | 34 :: r => Some ([], r)
  | 92 :: c :: r =>
    if (c =? 34) || (c =? 92)
    then match read_string r with
         | Some (t, r') => Some (c :: t, r')
         | None => None
         end
    else None
  | c :: r =>
    match read_string r with
    | Some (t, r') => Some (c :: t, r')
    | None => None
    end
  end.

Fixpoint read_digits (acc : N) (s : jstring) : N * jstring :=
  match s with
  | c :: r => if is_digit c then read_digits (10 * acc + (c - 48)) r else (acc, s)
  | [] => (acc, [])
  end.

Definition expect (word : jstring) (v : value) (s : jstring)
  : option (value * jstring) :=
  if starts_with word s then Some (v, drop (List.length word) s) else None.

Fixpoint read_value (fuel : nat) (s : jstring) : option (value * jstring) :=
  match fuel with
  | O => None
  | S f =>
    match skip_ws s with
    | [] => None
    | c :: r =>
      if c =? 110 then expect (lit "null") VNull (c :: r)
      else if c =? 116 then expect (lit "true") (VBool true) (c :: r)
      else if c =? 102 then expect (lit "false") (VBool false) (c :: r)
      else if c =? 34 then
        match read_string r with
        | Some (t, r') => Some (VStr t, r')
        | None => None
        end
      else if c =? 45 then
        match r with
        | d :: _ =>
          if is_digit d then
            let (n, r') := read_digits 0 r in
            Some (VNum (Num.of_Z (- Z.of_N n)), r')
          else None
        | [] => None
        end
      else if is_digit c then
        let (n, r') := read_digits 0 (c :: r) in
        Some (VNum (Num.of_N n), r')
      else if c =? 91 then
        match skip_ws r with
        | 93 :: r' => Some (VArr [], r')
        | _ => match read_items f r with
               | Some (l, r') => Some (VArr l, r')
               | None => None
               end
        end
      else if c =? 123 then
        match skip_ws r with
        | 125 :: r' => Some (VObj [], r')
        | _ => match read_members f r with
               | Some (ps, r') => Some (VObj ps, r')
               | None => None
               end
        end
      else None
    end
  end
with read_items (fuel : nat) (s : jstring) : option (list value * jstring) :=
  match fuel with
  | O => None
  | S f =>
    match read_value f s with
    | Some (v, r) =>
      match skip_ws r with
      | 44 :: r' => match read_items f r' with
                    | Some (l, r'') => Some (v :: l, r'')
                    | None => None
                    end
      | 93 :: r' => Some ([v], r')
      | _ => None
      end
    | None => None
    end
  end
with read_members (fuel : nat) (s : jstring)
  : option (list (jstring * value) * jstring) :=
  match fuel with
  | O => None
  | S f =>
    match skip_ws s with
    | 34 :: r =>
      match read_string r with
      | Some (k, r1) =>
        match skip_ws r1 with
        | 58 :: r2 =>
          match read_value f r2 with
          | Some (v, r3) =>
            match skip_ws r3 with
            | 44 :: r4 => match read_members f r4 with
                          | Some (ps, r5) => Some ((k, v) :: ps, r5)
                          | None => None
                          end
            | 125 :: r4 => Some ([(k, v)], r4)
            | _ => None
            end
          | None => None
          end
        | _ => None
        end
      | None => None
      end
    | _ => None
    end
  end.

Definition parse (s : jstring) : option value :=
  match read_value (S (2 * List.length s)) s with
  | Some (v, r) => match skip_ws r with
                   | [] => Some v
                   | _ => None
                   end
  | None => None
  end.

End MiniJSON.

(* ================================================================== *)
(** ** Concrete scenarios

    Environments and hosts on which the properties below are exercised:
    the reference codec as JSON primitives, and scripted provider
    answers. *)
(* ================================================================== *)

Module Scenario.

Definition manual : args :=
  {| isEvent := false; ipqsKey := []; lang := lit "en";
     maskIP_arg := false; eventDelay := Num.of_N 2 |}.

Definition on_event : args :=
  {| isEvent := true; ipqsKey := []; lang := lit "en";
     maskIP_arg := false; eventDelay := Num.of_N 2 |}.

Definition with_key : args :=
  {| isEvent := false; ipqsKey := lit "KEY"; lang := lit "en";
     maskIP_arg := false; eventDelay := Num.of_N 2 |}.

Definition world (a : args) (http : jstring -> option jstring)
    (recent : nat -> option (list request)) (v6 : bool) : env :=
  {| JSON_parse := MiniJSON.parse;
     JSON_stringify := MiniJSON.stringify;
     script_args := a;
     http_get := fun _ url => http url;
     recent_requests := recent;
     v6_in_time := v6 |}.

(** One URL answers [body]; every other request fails. *)
Definition only (url body : jstring) (u : jstring) : option jstring :=
  if JStr.eqb u url then Some body else None.

Definition fresh : host := {| store := ∅; trace := [] |}.

(** No provider answers at all. *)
Definition offline : env := world manual (fun _ => None) (fun _ => None) false.

Definition offline_event : env :=
  world on_event (fun _ => None) (fun _ => None) false.

Definition ip : jstring := lit "8.8.8.8".

(** A host whose risk cache holds an entry for [ip]. *)
Definition cached_text : jstring :=
  MiniJSON.stringify
    (cache_entry ip (VNum (Num.of_N 12)) (VStr (lit "IPQS"))).

Definition warm : host :=
  {| store := {[ CONFIG.riskCache := cached_text ]}; trace := [] |}.

(** Only Scamalytics answers, with a page whose three digits after the
    words Fraud Score read 999. *)
Definition scam_999 : env :=
  world manual
        (only (CONFIG.scamalytics ip) (lit "<b>Fraud Score: 999</b>"))
        (fun _ => None) false.

(** The v6 endpoint answers in time with an IPv4-shaped address. *)
Definition v6_says_v4 : env :=
  world manual
        (only CONFIG.outboundIPv6
              (MiniJSON.stringify (VObj [(lit "ip", VStr (lit "1.2.3.4"))])))
        (fun _ => None) true.

(** The structured IP-type endpoint answers isResidential: false. *)
Definition datacenter : env :=
  world manual
        (only CONFIG.ipType
              (MiniJSON.stringify
                 (VObj [(lit "isResidential", VBool false);
                        (lit "isBroadcast", VBool true)])))
        (fun _ => None) false.

(** A JSON object no conversion to text accepts. *)
Definition unprintable : value :=
  VObj [(lit "toString", VNum (Num.of_N 1))].

(** A host whose risk cache holds an entry for [ip] with such a score. *)
Definition odd_text : jstring :=
  MiniJSON.stringify (cache_entry ip unprintable (VStr (lit "IPQS"))).

Definition odd_cache : host :=
  {| store := {[ CONFIG.riskCache := odd_text ]}; trace := [] |}.

(** A key is configured and IPQS declines, with such a message; no other
    provider answers. *)
Definition ipqs_declines : env :=
  world with_key
        (only (CONFIG.ipqs (lit "KEY") ip)
              (MiniJSON.stringify
                 (VObj [(lit "success", VBool false);
                        (lit "message", unprintable)])))
        (fun _ => None) false.

(** A key is configured and IPQS answers the score 1e999.  [JSON.parse]
    reads that literal as Infinity; the reference parser knows no
    exponents, so the reading of this one body is scripted.  Writing
    Infinity gives [null], as [JSON.stringify] does. *)
Definition overflow_body : jstring :=
  [123; 34] ++ lit "success" ++ [34] ++ lit ":true," ++ [34]
    ++ lit "fraud_score" ++ [34] ++ lit ":1e999}".

Definition overflow_answer : value :=
  VObj [(lit "success", VBool true); (lit "fraud_score", VNum (Inf false))].

Definition overflow : env :=
  {| JSON_parse := fun s => if JStr.eqb s overflow_body
                            then Some overflow_answer
                            else MiniJSON.parse s;
     JSON_stringify := MiniJSON.stringify;
     script_args := with_key;
     http_get := fun _ url => only (CONFIG.ipqs (lit "KEY") ip) overflow_body url;
     recent_requests := fun _ => None;
     v6_in_time := false |}.

(** A key is configured and IPQS answers the score 150. *)
Definition ipqs_150 : env :=
  world with_key
        (only (CONFIG.ipqs (lit "KEY") ip)
              (MiniJSON.stringify
                 (VObj [(lit "success", VBool true);
                        (lit "fraud_score", VNum (Num.of_N 150))])))
        (fun _ => None) false.

Definition probe : request :=
  {| URL := lit "https://api-ipv4.ip.sb/geoip"; policyName := lit "Tokyo" |}.

Definition other : request :=
  {| URL := lit "https://example.com/"; policyName := lit "DIRECT" |}.

(** The probe shows in the traffic log at once. *)
Definition log_at_once : env :=
  world manual (fun _ => None) (fun _ => Some [other; probe]) false.


(** The probe never shows. *)
Definition log_never : env :=
  world manual (fun _ => None) (fun _ => Some [other]) false.

Definition remembered : host :=
  {| store := {[ CONFIG.lastPolicy := lit "Osaka" ]}; trace := [] |}.


End Scenario.

(* ================================================================== *)
(** ** Further definitions *)
(* ================================================================== *)

(** [n] groups that each read [*]. *)
Definition stars (n : nat) : list jstring := repeat [42] n.

(** [first_words_at n s]: the words Fraud Score (in any letter case) start at
    offset [n] of [s] and at no earlier offset. *)
Fixpoint first_words_at (n : nat) (s : jstring) : bool :=
  match n with
  | O => starts_with_ci (lit "Fraud Score") s
  | S n' =>
    negb (starts_with_ci (lit "Fraud Score") s)
    && match s with
       | [] => false
       | _ :: s' => first_words_at n' s'
       end
  end.

(** The unit after a run of digits is not a digit. *)
Definition run_ends (post : jstring) : bool :=
  match post with
  | [] => true
  | c :: _ => negb (is_digit c)
  end.

(** Position of the first element that satisfies [f]. *)
Fixpoint find_index {A} (f : A -> bool) (l : list A) : option nat :=
  match l with
  | [] => None
  | x :: l' => if f x then Some O else option_map S (find_index f l')
  end.

(** Position in [CONFIG.riskLevels] of the level [riskText] picks. *)
Definition risk_rank (score : num) : nat :=
  match find_index (fun l => Num.leb score (CONFIG.max l)) CONFIG.riskLevels with
  | Some i => i
  | None => (List.length CONFIG.riskLevels - 1)%nat
  end.

Definition text_of_level (l : CONFIG.level) : risk_text :=
  {| rt_label := CONFIG.label l; rt_color := CONFIG.color l |}.

(* ------------------------------------------------------------------ *)
(** *** Text of a value *)

Section Render.

(** [Number.prototype.toString] is host arithmetic and stays a parameter. *)
Variable number_text : num -> jstring.

(** The texts of the elements of an array, joined by a comma; the first
    element that cannot be converted raises. *)
Fixpoint join_texts (pieces : list (result jstring)) : result jstring :=
  match pieces with
  | [] => Ok []
  | Throw e :: _ => Throw e
  | [Ok p] => Ok p
  | Ok p :: rest =>
    match join_texts rest with
    | Ok t => Ok (p ++ lit "," ++ t)
    | Throw e => Throw e
    end
  end.

(** ToString, as string concatenation and [RegExp.prototype.test] apply it.
    An array is the join of its elements by a comma, [null] and
    [undefined] elements counting as empty; an object is [[object
    Object]] unless it carries its own [toString], which no conversion can
    call. *)
Fixpoint to_string (v : value) : result jstring :=
  match v with
  | VUndefined => Ok (lit "undefined")
  | VNull => Ok (lit "null")
  | VBool true => Ok (lit "true")
  | VBool false => Ok (lit "false")
  | VNum n => Ok (number_text n)
  | VStr s => Ok s
  | VArr l =>
    join_texts
      (map (fun x => match x with
                     | VUndefined | VNull => Ok []
                     | _ => to_string x
                     end) l)
  | VObj ps =>
    if own_toString ps then Throw TypeError else Ok (lit "[object Object]")
  end.

(* ------------------------------------------------------------------ *)
(** *** Normalizers *)

(** The canonical record the normalizers build. *)
Record canon := {
  c_country_code : value;
  c_country_name : value;
  c_city : value;
  c_region : value;
  c_org : value
}.

(** [normalizeIpSb(data)]; [None] stands for [null]. *)
Definition normalizeIpSb (data : value) : option canon :=
  if negb (truthy data) then None
  else Some {| c_country_code := get data (lit "country_code");
               c_country_name := get data (lit "country");
               c_city := get data (lit "city");
               c_region := get data (lit "region");
               c_org := get data (lit "organization") |}.

(** [\s] *)
Definition is_space (c : N) : bool :=
  ((9 <=? c) && (c <=? 13)) || (c =? 32) || (c =? 160) || (c =? 5760)
  || ((8192 <=? c) && (c <=? 8202)) || (c =? 8232) || (c =? 8233)
  || (c =? 8239) || (c =? 8287) || (c =? 12288) || (c =? 65279).

Fixpoint drop_while (f : N -> bool) (s : jstring) : jstring :=
  match s with
  | c :: s' => if f c then drop_while f s' else s
  | [] => []
  end.

(** [org.replace(/^AS\d+\s*/, "")] on a string. *)
Definition strip_as (org : jstring) : jstring :=
  match org with
  | 65 :: 83 :: d :: rest =>
    if is_digit d then drop_while is_space (drop_while is_digit rest) else org
  | _ => org
  end.

(** [normalizeIpInfo(data)].  A truthy [org] that is not a string has no
    [replace] to call. *)
Definition normalizeIpInfo (data : value) : result (option canon) :=
  if negb (truthy data) || negb (truthy (get data (lit "country")))
  then Ok None
  else
    match (if truthy (get data (lit "org"))
           then match get data (lit "org") with
                | VStr s => Ok (VStr (strip_as s))
                | _ => Throw TypeError
                end
           else Ok (VStr [])) with
    | Ok org =>
      Ok (Some {| c_country_code := get data (lit "country");
                  c_country_name := get data (lit "country");
                  c_city := get data (lit "city");
                  c_region := get data (lit "region");
                  c_org := org |})
    | Throw e => Throw e
    end.

(** [/^(移動|聯通|電信|廣電)$/.test(isp)] on the text of [isp]. *)
Definition state_carrier (isp : jstring) : bool :=
  JStr.eqb isp (lit "移動") || JStr.eqb isp (lit "聯通")
  || JStr.eqb isp (lit "電信") || JStr.eqb isp (lit "廣電").

(** [normalizeBilibili(data)] *)
Definition normalizeBilibili (data : value) : result (option canon) :=
  let d := opt_get data (lit "data") in
  if negb (truthy d) || negb (truthy (get d (lit "country")))
  then Ok None
  else
    let isp := or_else (get d (lit "isp")) (VStr []) in
    match to_string isp with
    | Throw e => Throw e
    | Ok text =>
      let isp := if state_carrier text then VStr (lit "中國" ++ text) else isp in
      Ok (Some {| c_country_code := VNull;
                  c_country_name := get d (lit "country");
                  c_city := or_else (get d (lit "city")) (VStr []);
                  c_region := get d (lit "province");
                  c_org := isp |})
    end.

(* ------------------------------------------------------------------ *)
(** *** Reconciliation (step 4 of the main function) *)

(** [info?.field] on a canonical record. *)
Definition cfield (f : canon -> value) (info : option canon) : value :=
  match info with
  | Some c => f c
  | None => VUndefined
  end.

(** [a || b] on records. *)
Definition or_record (a b : option canon) : option canon :=
  match a with
  | Some c => Some c
  | None => b
  end.

(** [{ ...bili, country_code: cc, org: isChina ? bili.org : org }] with
    [isChina = bili.country_name === "中國"]. *)
Definition localized (bili : canon) (cc org : value) : canon :=
  let isChina := strict_eq (c_country_name bili) (VStr (lit "中國")) in
  {| c_country_code := cc;
     c_country_name := c_country_name bili;
     c_city := c_city bili;
     c_region := c_region bili;
     c_org := if isChina then c_org bili else org |}.

Definition rbind {A B} (m : result A) (f : A -> result B) : result B :=
  match m with
  | Ok a => f a
  | Throw e => Throw e
  end.

(** The raw payloads the merge consumes. *)
Record raws := {
  inRaw_ : value;        (* bilibili zone, inbound *)
  inSbRaw : value;       (* ip.sb, inbound *)
  outIpInfoRaw : value;  (* ipinfo.io, outbound v4 *)
  outBiliRaw : value;    (* bilibili, outbound v4 (zh) *)
  outRaw_ : value;       (* ip.sb, outbound v4 *)
  v6IpInfoRaw : value;   (* ipinfo.io, outbound v6 *)
  v6BiliRaw : value;     (* bilibili, outbound v6 (zh) *)
  v6Raw_ : value         (* ip.sb, outbound v6 *)
}.

Record merged := {
  inInfo : option canon;
  outInfo : option canon;
  ipv6Info : option canon
}.

(** The [if (isZh) { ... } else { ... }] block; [hasV6] is the truthiness
    of [outIPv6]. *)
Definition reconcile (isZh hasV6 : bool) (r : raws) : result merged :=
  if isZh then
    let v6IpInfoRaw := if hasV6 then v6IpInfoRaw r else VNull in
    let v6BiliRaw := if hasV6 then v6BiliRaw r else VNull in
    rbind (normalizeBilibili (inRaw_ r)) (fun inBili =>
    let inSb := normalizeIpSb (inSbRaw r) in
    let inInfo :=
      match inBili with
      | Some b =>
        Some (localized b
                (or_else (cfield c_country_code inSb) (VStr []))
                (or_else (cfield c_org inSb) (VStr [])))
      | None => inSb
      end in
    rbind (normalizeBilibili (outBiliRaw r)) (fun outBili =>
    rbind (normalizeIpInfo (outIpInfoRaw r)) (fun outIpInfo =>
    let outSb := normalizeIpSb (outRaw_ r) in
    let outInfo :=
      match outBili with
      | Some b =>
        Some (localized b
                (or_else (cfield c_country_code outIpInfo)
                   (or_else (cfield c_country_code outSb) (VStr [])))
                (or_else (cfield c_org outIpInfo)
                   (or_else (cfield c_org outSb) (VStr []))))
      | None => or_record outIpInfo outSb
      end in
    rbind (normalizeBilibili v6BiliRaw) (fun v6Bili =>
    rbind (normalizeIpInfo v6IpInfoRaw) (fun v6IpInfo =>
    let v6Sb := if hasV6 then normalizeIpSb (v6Raw_ r) else None in
    let ipv6Info :=
      if hasV6 then
        match v6Bili with
        | Some b =>
          Some (localized b
                  (or_else (cfield c_country_code v6IpInfo)
                     (or_else (cfield c_country_code v6Sb) (VStr [])))
                  (or_else (cfield c_org v6IpInfo)
                     (or_else (cfield c_org v6Sb) (VStr []))))
        | None => or_record v6IpInfo v6Sb
        end
      else None in
    Ok {| inInfo := inInfo; outInfo := outInfo; ipv6Info := ipv6Info |})))))
  else
    let inInfo := normalizeIpSb (inSbRaw r) in
    rbind (normalizeIpInfo (outIpInfoRaw r)) (fun outIpInfo =>
    let outInfo := or_record outIpInfo (normalizeIpSb (outRaw_ r)) in
    rbind (if hasV6
           then rbind (normalizeIpInfo (v6IpInfoRaw r)) (fun v6IpInfo =>
                Ok (or_record v6IpInfo (normalizeIpSb (v6Raw_ r))))
           else Ok None) (fun ipv6Info =>
    Ok {| inInfo := inInfo; outInfo := outInfo; ipv6Info := ipv6Info |})).

End Render.

(* ------------------------------------------------------------------ *)
(** *** The geo endpoints the main function queries *)

Module URLS.

Definition inboundInfo (ip : jstring) : jstring :=
  lit "https://api.ip.sb/geoip/" ++ ip.

Definition biliGeo (ip : jstring) : jstring :=
  lit "https://api.live.bilibili.com/ip_service/v1/ip_service/get_ip_addr?ip="
    ++ ip.

Definition ipInfo (ip : jstring) : jstring :=
  lit "https://ipinfo.io/" ++ ip ++ lit "/json".

End URLS.

(* ------------------------------------------------------------------ *)
(** *** Script arguments *)








Section Arguments.

Variable E : env.

(** [parseFloat] is host arithmetic and stays a parameter. *)
Variable parseFloat : value -> num.



End Arguments.

(* ================================================================== *)
(** ** Sample inputs *)
(* ================================================================== *)

Module Samples.

(** Entries of the traffic log: an ordinary page, a probe whose policy name
    is empty, and a probe routed through the policy Proxy. *)
Definition page : request :=
  {| URL := lit "https://example.com/index.html"; policyName := lit "DIRECT" |}.

Definition unnamed_probe : request :=
  {| URL := lit "https://api.ip.sb/geoip"; policyName := [] |}.

Definition named_probe : request :=
  {| URL := lit "https://ipinfo.io/json"; policyName := lit "Proxy" |}.

(** Another address than [Scenario.ip]. *)
Definition elsewhere : jstring := lit "1.1.1.1".

(** ProxyCheck rates [Scenario.ip] at 66 and the Scamalytics page reads 10;
    no key is configured. *)
Definition proxycheck_body : jstring :=
  MiniJSON.stringify
    (VObj [(lit "status", VStr (lit "ok"));
           (Scenario.ip, VObj [(lit "risk", VNum (Num.of_N 66))])]).

Definition both_answer : env :=
  Scenario.world Scenario.manual
    (fun url =>
       if JStr.eqb url (CONFIG.proxyCheck Scenario.ip)
       then Some proxycheck_body
       else Scenario.only (CONFIG.scamalytics Scenario.ip)
                          (lit "Fraud Score: 10") url)
    (fun _ => None) false.

(** A key is configured and IPQS declines with a plain message; no other
    provider answers. *)
Definition ipqs_refuses : env :=
  Scenario.world Scenario.with_key
    (Scenario.only (CONFIG.ipqs (lit "KEY") Scenario.ip)
       (MiniJSON.stringify
          (VObj [(lit "success", VBool false);
                 (lit "message", VStr (lit "Invalid key"))])))
    (fun _ => None) false.

(** A host whose risk cache holds a text that is not JSON. *)
Definition torn_cache : host :=
  {| store := {[ CONFIG.riskCache := lit "{oops" ]}; trace := [] |}.

(** A host whose last-event snapshot is the text [null]. *)
Definition null_snapshot : host :=
  {| store := {[ CONFIG.lastEvent := lit "null" ]}; trace := [] |}.

(** The v6 endpoint would answer with an address, but after the timer. *)
Definition v6_late : env :=
  Scenario.world Scenario.manual
    (Scenario.only CONFIG.outboundIPv6
       (MiniJSON.stringify (VObj [(lit "ip", VStr (lit "2001:db8::1"))])))
    (fun _ => None) false.

(** The v6 endpoint answers in time with a number for [ip]. *)
Definition v6_number : env :=
  Scenario.world Scenario.manual
    (Scenario.only CONFIG.outboundIPv6
       (MiniJSON.stringify (VObj [(lit "ip", VNum (Num.of_N 6))])))
    (fun _ => None) true.

(** An ipinfo answer with an autonomous-system prefix in [org]. *)
Definition ipinfo_google : value :=
  VObj [(lit "country", VStr (lit "US"));
        (lit "city", VStr (lit "Mountain View"));
        (lit "region", VStr (lit "California"));
        (lit "org", VStr (lit "AS15169 Google LLC"))].

Definition nothing : raws :=
  {| inRaw_ := VNull; inSbRaw := VNull; outIpInfoRaw := VNull;
     outBiliRaw := VNull; outRaw_ := VNull; v6IpInfoRaw := VNull;
     v6BiliRaw := VNull; v6Raw_ := VNull |}.

(** Payloads of an outbound address in Tokyo: bilibili names the place,
    ipinfo knows the country only, ip.sb knows the carrier. *)
Definition bili_tokyo : value :=
  VObj [(lit "code", VNum (Num.of_N 0));
        (lit "data",
         VObj [(lit "country", VStr (lit "日本"));
               (lit "province", VStr (lit "東京都"));
               (lit "city", VStr (lit "東京"));
               (lit "isp", VStr (lit "NTT"))])].

Definition tokyo : raws :=
  {| inRaw_ := VNull; inSbRaw := VNull;
     outIpInfoRaw := VObj [(lit "country", VStr (lit "JP"))];
     outBiliRaw := bili_tokyo;
     outRaw_ := VObj [(lit "country_code", VStr (lit "JP"));
                      (lit "country", VStr (lit "Japan"));
                      (lit "organization", VStr (lit "NTT Communications"))];
     v6IpInfoRaw := VNull; v6BiliRaw := VNull; v6Raw_ := VNull |}.

(** An ipinfo answer whose [org] is a number. *)
Definition odd_org : raws :=
  {| inRaw_ := VNull; inSbRaw := VNull;
     outIpInfoRaw := VObj [(lit "country", VStr (lit "US"));
                           (lit "org", VNum (Num.of_N 15169))];
     outBiliRaw := VNull; outRaw_ := VNull; v6IpInfoRaw := VNull;
     v6BiliRaw := VNull; v6Raw_ := VNull |}.



End Samples.

(* ================================================================== *)
(** * Properties *)
(* ================================================================== *)

(** ** Strings and values *)

Lemma jstr_eqb_eq (a b : jstring) : JStr.eqb a b = true <-> a = b.
Proof.
  revert b; induction a as [|x a IH]; intros [|y b]; simpl; try easy.
  rewrite andb_true_iff, N.eqb_eq, IH. split.
  - intros [-> ->]; reflexivity.
  - intros Hxy; injection Hxy; auto.
Qed.

Lemma jstr_eqb_refl (a : jstring) : JStr.eqb a a = true.
Proof. apply jstr_eqb_eq; reflexivity. Qed.

Example lit_ascii : lit "ip" = [105; 112].
Proof. reflexivity. Qed.

Example lit_superscript : lit "IP⁴" = [73; 80; 8308].
Proof. reflexivity. Qed.

Example split_example :
  split 58 (lit "2001:db8::1") = [lit "2001"; lit "db8"; []; lit "1"].
Proof. reflexivity. Qed.

Example maskIP_v4 : maskIP (lit "123.45.67.89") = lit "123.*.*.89".
Proof. reflexivity. Qed.

Example maskIP_v6 : maskIP (lit "2001:db8:85a3::7334") = lit "2001:*:*:*:7334".
Proof. reflexivity. Qed.

Example flag_us : flag (TStr (lit "US")) = lit "🇺🇸".
Proof. reflexivity. Qed.

Example flag_tw : flag (TStr (lit "tw")) = lit "🇨🇳".
Proof. reflexivity. Qed.

Example scamalytics_example :
  parseScamalyticsScore (Some (lit "<div>fraud score: <b>37</b></div>"))
  = Some (Num.of_N 37).
Proof. reflexivity. Qed.

Lemma strict_eq_str (a : jstring) : strict_eq (VStr a) (VStr a) = true.
Proof. apply jstr_eqb_refl. Qed.


(** ** Numbers *)

Lemma num_leb_trans (a b c : num) :
  Num.leb a b = true -> Num.leb b c = true -> Num.leb a c = true.
Proof.
  destruct a as [| [|] | x], b as [| [|] | y], c as [| [|] | z];
    simpl; try easy.
  rewrite !Qle_bool_iff. apply Qle_trans.
Qed.

Lemma num_ltb_not_leb (a b : num) :
  Num.ltb a b = true -> Num.leb b a = false.
Proof.
  destruct a as [| [|] | x], b as [| [|] | y]; simpl; try easy.
  apply negb_true_iff.
Qed.

(** ** Lists *)

Lemma find_first {A} (f : A -> bool) (l : list A) (x : A) :
  find f l = Some x ->
  exists pre post,
    l = pre ++ x :: post /\ f x = true /\ Forall (fun y => f y = false) pre.
Proof.
  induction l as [|y l IH]; simpl; [discriminate|].
  destruct (f y) eqn:Hy.
  - intros Hx; injection Hx as ->. exists [], l. auto.
  - intros Hx. destruct (IH Hx) as (pre & post & -> & Hfx & Hpre).
    exists (y :: pre), post. auto.
Qed.

Lemma find_none_all {A} (f : A -> bool) (l : list A) :
  Forall (fun y => f y = false) l -> find f l = None.
Proof.
  induction 1 as [|y l Hy _ IH]; simpl; [reflexivity|]. now rewrite Hy.
Qed.

Lemma find_some_if {A} (f : A -> bool) (l : list A) (x : A) :
  In x l -> f x = true -> exists y, find f l = Some y.
Proof.
  induction l as [|z l IH]; simpl; [tauto|].
  intros [-> | Hin] Hfx.
  - rewrite Hfx. eauto.
  - destruct (f z); eauto.
Qed.

(** ** C9: one-shot completion *)

Lemma done_finished (o : value) (st : completion) :
  finished st = true -> done o st = st.
Proof. unfold done. now intros ->. Qed.

Lemma run_done_finished (calls : list value) (st : completion) :
  finished st = true -> run_done calls st = st.
Proof.
  revert st; induction calls as [|o calls IH]; intros st Hst; simpl.
  - reflexivity.
  - rewrite done_finished by assumption. now apply IH.
Qed.

(** C9.  For every sequence of calls to [done] in a run, in whatever order
    the watchdog, the acquisition-failure path, the unchanged-network path
    and the normal completion make them, [$done] is invoked exactly once,
    with the argument of the first call; every later call is dropped by the
    [finished] guard. *)
Theorem done_exactly_once (o : value) (later : list value) :
  run_done (o :: later) start = {| finished := true; emitted := [o] |}.
Proof.
  simpl. unfold done at 1. simpl. now apply run_done_finished.
Qed.

(** ** C10: risk buckets *)

Lemma levels_below_100 :
  Forall (fun l => Num.leb (CONFIG.max l) (Num.of_N 100) = true)
         CONFIG.riskLevels.
Proof. repeat constructor. Qed.

Lemma riskText_above (score : num) :
  Num.ltb (Num.of_N 100) score = true ->
  riskText score = Ok last_level_text.
Proof.
  intros Habove. unfold riskText.
  rewrite find_none_all; [reflexivity|].
  eapply Forall_impl; [apply levels_below_100|].
  intros l Hl. simpl in Hl.
  destruct (Num.leb score (CONFIG.max l)) eqn:Hs; [|reflexivity].
  pose proof (num_leb_trans _ _ _ Hs Hl) as Htr.
  rewrite (num_ltb_not_leb _ _ Habove) in Htr. discriminate.
Qed.

Lemma riskText_within (score : num) :
  Num.leb score (Num.of_N 100) = true ->
  exists pre l post,
    CONFIG.riskLevels = pre ++ l :: post
    /\ Num.leb score (CONFIG.max l) = true
    /\ Forall (fun l' => Num.leb score (CONFIG.max l') = false) pre
    /\ riskText score
       = Ok {| rt_label := CONFIG.label l; rt_color := CONFIG.color l |}.
Proof.
  intros Hle. unfold riskText.
  destruct (find_some_if (fun l => Num.leb score (CONFIG.max l))
              CONFIG.riskLevels
              {| CONFIG.max := Num.of_N 100; CONFIG.label := lit "極度風險 IP";
                 CONFIG.color := lit "#F44336" |}) as [l Hfind].
  - simpl. tauto.
  - exact Hle.
  - rewrite Hfind.
    destruct (find_first _ _ _ Hfind) as (pre & post & Hsplit & Hl & Hpre).
    exists pre, l, post. auto.
Qed.

(** C10.  [riskText] is total on numbers: it always yields a label and a
    color.  A score above 100 gets the last level (極度風險 IP, #F44336);
    a score of at most 100 gets the label and color of the first level of
    [CONFIG.riskLevels] whose [max] is at least the score. *)
Theorem riskText_total (score : num) :
  (exists r, riskText score = Ok r)
  /\ (Num.ltb (Num.of_N 100) score = true ->
      riskText score = Ok last_level_text)
  /\ (Num.leb score (Num.of_N 100) = true ->
      exists pre l post,
        CONFIG.riskLevels = pre ++ l :: post
        /\ Num.leb score (CONFIG.max l) = true
        /\ Forall (fun l' => Num.leb score (CONFIG.max l') = false) pre
        /\ riskText score
           = Ok {| rt_label := CONFIG.label l; rt_color := CONFIG.color l |}).
Proof.
  split; [|split].
  - unfold riskText.
    destruct (find _ CONFIG.riskLevels) as [l|]; simpl; eauto.
  - apply riskText_above.
  - apply riskText_within.
Qed.

(** The buckets at a score above 100, at NaN and at 12. *)
Lemma riskText_total_witness :
  riskText (Num.of_N 150) = Ok last_level_text
  /\ riskText NaN = Ok last_level_text
  /\ riskText (Num.of_N 12)
     = Ok {| rt_label := lit "極度純淨 IP"; rt_color := lit "#0D6E3D" |}.
Proof.
  split; [|split].
  - apply (riskText_total (Num.of_N 150)). reflexivity.
  - reflexivity.
  - destruct (riskText_total (Num.of_N 12)) as (_ & _ & Hin).
    destruct (Hin eq_refl) as (pre & l & post & _ & _ & _ & _).
    reflexivity.
Defined.

(** ** C7: proxy policy discovery *)

Lemma recent_count_app (h : host) (evs : list event) (s : gmap jstring jstring) :
  recent_count {| store := s; trace := trace h ++ evs |}
  = (recent_count h + List.length (List.filter is_recent evs))%nat.
Proof.
  unfold recent_count; simpl. now rewrite List.filter_app, List.length_app.
Qed.


(** ** C8: IP type *)

Lemma isResidential_only_on_truthy (v : value) :
  get v (lit "isResidential") <> VUndefined -> truthy v = true.
Proof.
  destruct v; try (now intros Habs; exfalso; apply Habs); reflexivity.
Qed.

Lemma getIPType_tier1 (E : env) (h : host) :
  let info := parse_body E (http_get E None CONFIG.ipType) in
  get info (lit "isResidential") <> VUndefined ->
  getIPType E h
  = (Ok {| ipType := if truthy (get info (lit "isResidential"))
                     then lit "住宅 IP" else lit "機房 IP";
           ipSrc := if truthy (get info (lit "isBroadcast"))
                    then lit "廣播 IP" else lit "原生 IP" |},
     observe [EvHttp CONFIG.ipType None] h).
Proof.
  intros info Hpresent.
  unfold getIPType, httpJSON, http_body, bind, emit, ret, observe.
  cbn [store trace]. fold info.
  rewrite (isResidential_only_on_truthy _ Hpresent).
  destruct (get info (lit "isResidential")); try reflexivity.
  now exfalso.
Qed.

Lemma getIPType_tier2 (E : env) (h : host) :
  let info := parse_body E (http_get E None CONFIG.ipType) in
  get info (lit "isResidential") = VUndefined ->
  getIPType E h
  = (Ok match nonempty (http_get E None CONFIG.ipTypeCard) with
        | Some html =>
          {| ipType := if residential_pattern html
                       then lit "住宅 IP" else lit "機房 IP";
             ipSrc := if broadcast_pattern html
                      then lit "廣播 IP" else lit "原生 IP" |}
        | None => {| ipType := lit "未知"; ipSrc := lit "未知" |}
        end,
     observe [EvHttp CONFIG.ipType None; EvHttp CONFIG.ipTypeCard None] h).
Proof.
  intros info Habsent.
  unfold getIPType, httpJSON, httpRaw, http_body, bind, emit, ret, observe.
  cbn [store trace]. fold info. rewrite Habsent.
  rewrite andb_false_r. cbn [store trace negb is_undefined].
  rewrite <- app_assoc.
  now destruct (nonempty (http_get E None CONFIG.ipTypeCard)).
Qed.

(** C8.  With [info] the parsed answer of the structured endpoint:
    - when [info.isResidential] is a boolean, [false] included, the result
      is classified from [info] and the card page is not fetched;
    - more generally the card page is not fetched when the field is present
      and is fetched when it is absent;
    - when the field is absent and the card fetch yields nothing, the result
      is the sentinel 未知 / 未知. *)
Theorem getIPType_tiers (E : env) (h : host) :
  let info := parse_body E (http_get E None CONFIG.ipType) in
  let card := nonempty (http_get E None CONFIG.ipTypeCard) in
  (forall b, get info (lit "isResidential") = VBool b ->
     getIPType E h
     = (Ok {| ipType := if b then lit "住宅 IP" else lit "機房 IP";
              ipSrc := if truthy (get info (lit "isBroadcast"))
                       then lit "廣播 IP" else lit "原生 IP" |},
        observe [EvHttp CONFIG.ipType None] h))
  /\ (get info (lit "isResidential") <> VUndefined ->
      exists t, getIPType E h = (Ok t, observe [EvHttp CONFIG.ipType None] h))
  /\ (get info (lit "isResidential") = VUndefined ->
      exists t,
        getIPType E h
        = (Ok t, observe [EvHttp CONFIG.ipType None;
                          EvHttp CONFIG.ipTypeCard None] h))
  /\ (get info (lit "isResidential") = VUndefined -> card = None ->
      getIPType E h
      = (Ok {| ipType := lit "未知"; ipSrc := lit "未知" |},
         observe [EvHttp CONFIG.ipType None;
                  EvHttp CONFIG.ipTypeCard None] h)).
Proof.
  intros info card. repeat split.
  - intros b Hb.
    pose proof (getIPType_tier1 E h) as Hrun. cbv zeta in Hrun.
    fold info in Hrun. rewrite Hb in Hrun. apply Hrun. discriminate.
  - intros Hpresent. eexists. now apply getIPType_tier1.
  - intros Habsent. eexists. now apply getIPType_tier2.
  - intros Habsent Hcard.
    pose proof (getIPType_tier2 E h Habsent) as Hrun.
    fold card in Hrun. now rewrite Hcard in Hrun.
Qed.

(** ** C4: the v6 answer that looks like v4 *)

Lemma fetchIPs_run (E : env) (h : host) :
  let enter := parse_body E (http_get E (Some (lit "DIRECT")) CONFIG.inboundIP) in
  let exit := parse_body E (http_get E None CONFIG.outboundIP) in
  let exit6 := v6_answer E in
  let v6ip := opt_get exit6 (lit "ip") in
  let h' := observe [EvHttp CONFIG.inboundIP (Some (lit "DIRECT"));
                     EvHttp CONFIG.outboundIP None;
                     EvHttp CONFIG.outboundIPv6 None;
                     EvWait CONFIG.ipv6Timeout] h in
  fetchIPs E h =
  match (if truthy v6ip then includes_colon v6ip else Ok false) with
  | Ok hasIPv6 =>
    (Ok {| inIP := or_else (opt_get (opt_get enter (lit "data")) (lit "addr")) VNull;
           outIP := or_else (opt_get exit (lit "ip")) VNull;
           outIPv6 := if hasIPv6 then v6ip else VNull;
           inRaw := enter;
           outRaw := exit;
           v6Raw := if hasIPv6 then exit6 else VNull |}, h')
  | Throw e => (Throw e, h')
  end.
Proof.
  intros enter exit exit6 v6ip h'.
  unfold fetchIPs, httpJSON, http_body, wait, bind, emit, ret, throw.
  cbn [store trace]. fold enter exit. fold (v6_answer E). fold exit6 v6ip.
  assert (Htrace :
    (((trace h ++ [EvHttp CONFIG.inboundIP (Some (lit "DIRECT"))])
        ++ [EvHttp CONFIG.outboundIP None])
        ++ [EvHttp CONFIG.outboundIPv6 None])
        ++ [EvWait CONFIG.ipv6Timeout]
    = trace h') by (unfold h', observe; cbn [trace]; now rewrite <- !app_assoc).
  rewrite Htrace.
  destruct (truthy v6ip); [destruct (includes_colon v6ip)|]; reflexivity.
Qed.

(** C4.  When the address of the v6 answer is a string [s]:
    - if [s] holds no colon, [fetchIPs] returns with [outIPv6] and [v6Raw]
      both [null];
    - whenever [fetchIPs] returns a non-null [outIPv6], it is [s] and [s]
      holds a colon. *)
Theorem fetchIPs_v6_guard (E : env) (h : host) (s : jstring) :
  opt_get (v6_answer E) (lit "ip") = VStr s ->
  (includes (lit ":") s = false ->
   exists r h', fetchIPs E h = (Ok r, h')
                /\ outIPv6 r = VNull /\ v6Raw r = VNull)
  /\ (forall r h', fetchIPs E h = (Ok r, h') -> outIPv6 r <> VNull ->
      outIPv6 r = VStr s /\ includes (lit ":") s = true).
Proof.
  intros Hip. pose proof (fetchIPs_run E h) as Hrun. cbv zeta in Hrun.
  rewrite Hip in Hrun. cbn [includes_colon] in Hrun.
  destruct (truthy (VStr s)) eqn:Htruthy;
    [destruct (includes (lit ":") s) eqn:Hcolon|]; split.
  - discriminate.
  - intros r h' Hr _. rewrite Hrun in Hr. injection Hr as <- _. auto.
  - intros _. do 2 eexists. split; [exact Hrun|]. split; reflexivity.
  - intros r h' Hr Hv6. rewrite Hrun in Hr. injection Hr as <- _.
    now contradiction Hv6.
  - intros _. do 2 eexists. split; [exact Hrun|]. split; reflexivity.
  - intros r h' Hr Hv6. rewrite Hrun in Hr. injection Hr as <- _.
    now contradiction Hv6.
Qed.

(** ** C5: change detection *)

Lemma checkIPChange_run (E : env) (h : host) (i o v : value) :
  isEvent (script_args E) = true ->
  nullish (last_data E (store h !! CONFIG.lastEvent)) = false ->
  checkIPChange E i o v h
  = if unchanged E i o v h then (Ok false, h)
    else (Ok true, snapshot_host E i o v h).
Proof.
  intros Hevent Hobj.
  unfold checkIPChange, unchanged, bind, store_read, store_write, ret, throw.
  rewrite Hevent. cbn [negb]. rewrite Hobj.
  now destruct (_ && _).
Qed.

Lemma last_data_after_snapshot (E : env) (h : host) (i o v : value) :
  codec_faithful_on E (snapshot i o v) ->
  last_data E (store (snapshot_host E i o v h) !! CONFIG.lastEvent)
  = snapshot i o v.
Proof.
  intros [Hne Hparse]. unfold snapshot_host, last_data. cbn [store].
  rewrite lookup_insert_eq. unfold nonempty.
  destruct (JSON_stringify E (snapshot i o v)) as [|c r] eqn:Hs;
    [contradiction|].
  now rewrite Hparse.
Qed.

Lemma checkIPChange_writes_only_on_change (E : env) (h h' : host)
    (i o v : value) (r : result bool) :
  checkIPChange E i o v h = (r, h') ->
  h' = h
  \/ (isEvent (script_args E) = true /\ r = Ok true
      /\ unchanged E i o v h = false /\ h' = snapshot_host E i o v h).
Proof.
  unfold checkIPChange, unchanged, bind, store_read, store_write, ret, throw.
  destruct (isEvent (script_args E)); cbn [negb].
  - destruct (nullish _).
    + intros Hr; injection Hr as _ <-. now left.
    + destruct (_ && _).
      * intros Hr; injection Hr as _ <-. now left.
      * intros Hr; injection Hr as <- <-. right. auto.
  - intros Hr; injection Hr as _ <-. now left.
Qed.

(** C5.  In event mode, for string addresses (the v6 address a string or
    [null]): once a call has returned, persisting the snapshot when it
    reported a change, a second call with the same triple returns [false]
    and leaves the host untouched, provided the codec gives back the
    snapshot it wrote.  And any call that touches the host at all reported
    a change against the persisted snapshot and wrote exactly the new
    snapshot. *)
Theorem checkIPChange_reflexive (E : env) :
  isEvent (script_args E) = true ->
  (forall (h h1 : host) (a b : jstring) (v6 : value) (changed : bool),
     v6 = VNull \/ (exists c, v6 = VStr c) ->
     checkIPChange E (VStr a) (VStr b) v6 h = (Ok changed, h1) ->
     (changed = true ->
      codec_faithful_on E (snapshot (VStr a) (VStr b) v6)) ->
     checkIPChange E (VStr a) (VStr b) v6 h1 = (Ok false, h1))
  /\ (forall (h h' : host) (i o v : value) (r : result bool),
        checkIPChange E i o v h = (r, h') ->
        h' = h
        \/ (r = Ok true /\ unchanged E i o v h = false
            /\ h' = snapshot_host E i o v h)).
Proof.
  intros Hevent. split.
  - intros h h1 a b v6 changed Hv6 Hfirst Hcodec.
    assert (Hv6_refl : strict_eq v6 v6 = true).
    { destruct Hv6 as [-> | [c ->]]; [reflexivity | apply strict_eq_str]. }
    destruct (checkIPChange_writes_only_on_change _ _ _ _ _ _ _ Hfirst)
      as [-> | (_ & Hch & Hdiff & ->)].
    + (* the first call wrote nothing: it saw the same snapshot *)
      unfold checkIPChange, bind, store_read, store_write, ret, throw in *.
      rewrite Hevent in *. cbn [negb] in *.
      destruct (nullish _); [discriminate|].
      destruct (_ && _); [reflexivity|].
      injection Hfirst as _ Hh.
      apply (f_equal trace) in Hh. cbn [trace] in Hh.
      rewrite <- (app_nil_r (trace h)) in Hh at 2.
      apply app_inv_head in Hh. discriminate.
    + injection Hch as ->.
      specialize (Hcodec eq_refl).
      rewrite checkIPChange_run; try assumption.
      * unfold unchanged. rewrite last_data_after_snapshot by assumption.
        unfold snapshot, get, assoc.
        change (JStr.eqb (lit "inIP") (lit "inIP")) with true.
        change (JStr.eqb (lit "outIP") (lit "inIP")) with false.
        change (JStr.eqb (lit "outIP") (lit "outIP")) with true.
        change (JStr.eqb (lit "outIP6") (lit "inIP")) with false.
        change (JStr.eqb (lit "outIP6") (lit "outIP")) with false.
        change (JStr.eqb (lit "outIP6") (lit "outIP6")) with true.
        cbv iota. now rewrite !strict_eq_str, Hv6_refl.
      * now rewrite last_data_after_snapshot.
  - intros h h' i o v r Hrun.
    destruct (checkIPChange_writes_only_on_change _ _ _ _ _ _ _ Hrun)
      as [-> | (_ & -> & Hdiff & ->)]; auto.
Qed.

(** ** C6: one block or two *)



(** ** Risk score: how a run unfolds *)

Lemma getRiskScore_hit (E : env) (h : host) (ip : jstring) (r : risk) :
  cache_check E (store h !! CONFIG.riskCache) ip = Some r ->
  getRiskScore E ip h = (Ok r, h).
Proof.
  intros Hhit. unfold getRiskScore, bind, store_read, ret. now rewrite Hhit.
Qed.

Lemma saveAndReturn_run (E : env) (h : host) (ip : jstring) (x : value)
    (name : jstring) :
  let r := {| score := x; source := VStr name |} in
  saveAndReturn E ip x name h = (saved r, cached_host E ip r [] h).
Proof.
  unfold saveAndReturn, saved, console_log, log, bind, store_write, ret,
    cached_host.
  cbn [store trace score source forallb printable]. rewrite andb_true_r.
  now destruct (printable x).
Qed.

Lemma cached_host_after (E : env) (ip : jstring) (r : risk)
    (before evs : list event) (h : host) :
  cached_host E ip r evs (observe before h)
  = cached_host E ip r (before ++ evs) h.
Proof.
  unfold cached_host, observe. cbn [store trace]. now rewrite <- !app_assoc.
Qed.

Lemma tiers23_run (E : env) (h : host) (ip : jstring) :
  tiers23 E ip h
  = (saved (resolved23 E ip),
     cached_host E ip (resolved23 E ip)
       [EvHttp (CONFIG.proxyCheck ip) None;
        EvHttp (CONFIG.scamalytics ip) None] h).
Proof.
  unfold tiers23, httpJSON, httpRaw, http_body, bind, emit, ret.
  cbn [store trace].
  fold (proxycheck_answer E ip). fold (scamalytics_answer E ip).
  change {| store := store h;
            trace := (trace h ++ [EvHttp (CONFIG.proxyCheck ip) None])
                       ++ [EvHttp (CONFIG.scamalytics ip) None] |}
    with (observe [EvHttp (CONFIG.scamalytics ip) None]
            (observe [EvHttp (CONFIG.proxyCheck ip) None] h)).
  unfold resolved23.
  destruct (proxycheck_score _ ip);
    [|destruct (parseScamalyticsScore _)];
    rewrite saveAndReturn_run; cbv zeta; now rewrite !cached_host_after.
Qed.

(** A miss, in full: the fall-back line may raise before tiers 2 and 3 are
    asked; otherwise the resolved tuple is written and then logged. *)
Lemma getRiskScore_miss (E : env) (h : host) (ip : jstring) :
  cache_check E (store h !! CONFIG.riskCache) ip = None ->
  getRiskScore E ip h
  = if fallback_renders E ip
    then (saved (fst (resolved E ip)),
          cached_host E ip (fst (resolved E ip)) (snd (resolved E ip)) h)
    else (Throw TypeError,
          observe [EvHttp (CONFIG.ipqs (ipqsKey (script_args E)) ip) None] h).
Proof.
  intros Hmiss.
  unfold getRiskScore, resolved, fallback_renders, bind, store_read, ret.
  rewrite Hmiss.
  destruct (ipqsKey (script_args E)) as [|k key] eqn:Hkey.
  - now rewrite tiers23_run.
  - unfold httpJSON, http_body, bind, emit, ret. cbn [store trace].
    rewrite <- Hkey. fold (ipqs_answer E ip).
    change {| store := store h;
              trace := trace h
                ++ [EvHttp (CONFIG.ipqs (ipqsKey (script_args E)) ip) None] |}
      with (observe [EvHttp (CONFIG.ipqs (ipqsKey (script_args E)) ip) None] h).
    destruct (ipqs_score (ipqs_answer E ip)).
    + rewrite saveAndReturn_run. cbv zeta. cbn [fst snd].
      now rewrite cached_host_after.
    + unfold console_log, log.
      destruct (forallb printable _); [|reflexivity].
      rewrite tiers23_run. cbn [fst snd]. now rewrite cached_host_after.
Qed.

Lemma cached_host_changes (E : env) (ip : jstring) (r : risk)
    (evs : list event) (h : host) :
  cached_host E ip r evs h <> h.
Proof.
  intros Heq. apply (f_equal (fun x => List.length (trace x))) in Heq.
  unfold cached_host in Heq. cbn [trace] in Heq.
  rewrite !List.length_app in Heq. cbn [List.length] in Heq. lia.
Qed.

Lemma cache_check_parsed (E : env) (stored : option jstring)
    (cached ip : jstring) (c : value) :
  nonempty stored = Some cached ->
  JSON_parse E cached = Some c ->
  get c (lit "ip") = VStr ip ->
  cache_check E stored ip
  = if printable (get c (lit "score")) && printable (get c (lit "source"))
    then Some {| score := get c (lit "score"); source := get c (lit "source") |}
    else None.
Proof.
  intros Hstored Hparse Hip. unfold cache_check, cache_try, log.
  rewrite Hstored, Hparse, Hip, strict_eq_str.
  replace (nullish c) with false by (now destruct c).
  cbn [forallb]. rewrite andb_true_r.
  now destruct (printable _ && printable _).
Qed.

Lemma cache_check_after_save (E : env) (ip : jstring) (r : risk)
    (evs : list event) (h : host) :
  codec_faithful_on E (cache_entry ip (score r) (source r)) ->
  printable (score r) = true ->
  printable (source r) = true ->
  cache_check E (store (cached_host E ip r evs h) !! CONFIG.riskCache) ip
  = Some r.
Proof.
  intros [Hne Hparse] Hscore Hsource.
  rewrite (cache_check_parsed E _ (JSON_stringify E
             (cache_entry ip (score r) (source r))) ip
             (cache_entry ip (score r) (source r))).
  - change (get (cache_entry ip (score r) (source r)) (lit "score"))
      with (score r).
    change (get (cache_entry ip (score r) (source r)) (lit "source"))
      with (source r).
    rewrite Hscore, Hsource. now destruct r.
  - unfold cached_host. cbn [store]. rewrite lookup_insert_eq.
    unfold nonempty.
    destruct (JSON_stringify E _) as [|x s] eqn:Hs; [contradiction | reflexivity].
  - exact Hparse.
  - reflexivity.
Qed.

Lemma resolved_source (E : env) (ip : jstring) :
  printable (source (fst (resolved E ip))) = true.
Proof.
  unfold resolved, resolved23.
  destruct (ipqsKey (script_args E));
    [|destruct (ipqs_score _); [reflexivity|]];
    destruct (proxycheck_score _ ip); try reflexivity;
    destruct (parseScamalyticsScore _); reflexivity.
Qed.

Lemma saved_ok (r r' : risk) :
  saved r = Ok r' -> r' = r /\ printable (score r) = true.
Proof.
  unfold saved. destruct (printable (score r)); [|discriminate].
  intros Hr; injection Hr as <-. auto.
Qed.

(** ** C1: the cache hit *)

(** C1 as stated fails at two inputs.  A persisted entry for the queried
    address whose score is an object with its own [toString] parses, but the
    line logged inside the [try] cannot render it: the [catch] swallows the
    TypeError, the providers are asked and the cache is rewritten.  And a
    score JSON text cannot carry is not identical the second time: the
    IPQS score 1e999 is returned as Infinity by the first call and as
    [null], read back from the cache, by the second. *)
Lemma getRiskScore_cache_hit_fails :
  (nonempty (store Scenario.odd_cache !! CONFIG.riskCache)
   = Some Scenario.odd_text
   /\ JSON_parse Scenario.offline Scenario.odd_text
      = Some (VObj [(lit "ip", VStr Scenario.ip);
                    (lit "score", Scenario.unprintable);
                    (lit "source", VStr (lit "IPQS"))])
   /\ fst (getRiskScore Scenario.offline Scenario.ip Scenario.odd_cache)
      = Ok {| score := VNum (Num.of_N 50); source := VStr (lit "Default") |}
   /\ trace (snd (getRiskScore Scenario.offline Scenario.ip Scenario.odd_cache))
      = [EvHttp (CONFIG.proxyCheck Scenario.ip) None;
         EvHttp (CONFIG.scamalytics Scenario.ip) None;
         EvStoreWrite
           (JSON_stringify Scenario.offline
              (VObj [(lit "ip", VStr Scenario.ip);
                     (lit "score", VNum (Num.of_N 50));
                     (lit "source", VStr (lit "Default"))]))
           CONFIG.riskCache])
  /\ (fst (getRiskScore Scenario.overflow Scenario.ip Scenario.fresh)
      = Ok {| score := VNum (Inf false); source := VStr (lit "IPQS") |}
      /\ fst (getRiskScore Scenario.overflow Scenario.ip
                (snd (getRiskScore Scenario.overflow Scenario.ip
                        Scenario.fresh)))
         = Ok {| score := VNull; source := VStr (lit "IPQS") |})
  /\ ~ (forall E A h cached c,
          nonempty (store h !! CONFIG.riskCache) = Some cached ->
          JSON_parse E cached = Some c ->
          get c (lit "ip") = VStr A ->
          getRiskScore E A h
          = (Ok {| score := get c (lit "score");
                   source := get c (lit "source") |}, h))
  /\ ~ (forall E A h r h1 r2 h2,
          getRiskScore E A h = (Ok r, h1) ->
          getRiskScore E A h1 = (Ok r2, h2) ->
          r2 = r).
Proof.
  split; [|split; [|split]].
  - repeat split; reflexivity.
  - split; reflexivity.
  - intros Hall.
    specialize (Hall Scenario.offline Scenario.ip Scenario.odd_cache
                  Scenario.odd_text _ eq_refl eq_refl eq_refl).
    apply (f_equal (fun out => List.length (trace (snd out)))) in Hall.
    vm_compute in Hall. discriminate Hall.
  - intros Hall.
    assert (Hsame :
      {| score := VNull; source := VStr (lit "IPQS") |}
      = {| score := VNum (Inf false); source := VStr (lit "IPQS") |}).
    { apply (Hall Scenario.overflow Scenario.ip Scenario.fresh _
               (snd (getRiskScore Scenario.overflow Scenario.ip Scenario.fresh))
               _
               (snd (getRiskScore Scenario.overflow Scenario.ip
                       (snd (getRiskScore Scenario.overflow Scenario.ip
                               Scenario.fresh)))));
        reflexivity. }
    discriminate Hsame.
Qed.

(** C1, amended.  When the persisted risk-cache entry parses to [c], [c.ip]
    is the queried address [A] and [c.score] and [c.source] can be rendered
    as text, [getRiskScore A] returns [c.score] and [c.source] and leaves
    the host as it was: no request, no write.  And after any call for [A]
    that returned [r], a second call for [A] returns the same [r] and leaves
    the host as it was, provided that, when the first call wrote an entry,
    [JSON.parse] gives back the entry [JSON.stringify] wrote. *)
Theorem getRiskScore_cache_hit (E : env) (A : jstring) :
  (forall (h : host) (cached : jstring) (c : value),
     nonempty (store h !! CONFIG.riskCache) = Some cached ->
     JSON_parse E cached = Some c ->
     get c (lit "ip") = VStr A ->
     printable (get c (lit "score")) = true ->
     printable (get c (lit "source")) = true ->
     getRiskScore E A h
     = (Ok {| score := get c (lit "score");
              source := get c (lit "source") |}, h))
  /\ (forall (h : host) (r : risk) (h1 : host),
        getRiskScore E A h = (Ok r, h1) ->
        (h1 <> h ->
         let entry := VObj [(lit "ip", VStr A); (lit "score", score r);
                            (lit "source", source r)] in
         JSON_stringify E entry <> []
         /\ JSON_parse E (JSON_stringify E entry) = Some entry) ->
        getRiskScore E A h1 = (Ok r, h1)).
Proof.
  split.
  - intros h cached c Hcached Hparse Hip Hscore Hsource.
    apply getRiskScore_hit.
    rewrite (cache_check_parsed _ _ _ _ _ Hcached Hparse Hip).
    now rewrite Hscore, Hsource.
  - intros h r h1 Hfirst Hcodec.
    destruct (cache_check E (store h !! CONFIG.riskCache) A) as [r0|] eqn:Hc.
    + rewrite (getRiskScore_hit _ _ _ _ Hc) in Hfirst.
      injection Hfirst as <- <-. now apply getRiskScore_hit.
    + rewrite (getRiskScore_miss _ _ _ Hc) in Hfirst.
      destruct (fallback_renders E A); [|discriminate].
      injection Hfirst as Hsaved <-.
      apply saved_ok in Hsaved as [-> Hscore].
      apply getRiskScore_hit, cache_check_after_save.
      * apply Hcodec, cached_host_changes.
      * exact Hscore.
      * apply resolved_source.
Qed.

(** ** C2: the default tuple *)

(** X8.  [getRiskScore].  The default tuple on the runs where the fall-back
    line renders: on a cache miss, with tier 1 skipped (no key) or without a
    score and with a fall-back line that renders, and with tiers 2 and 3
    without a score, the requests are the IPQS one when a key is set, then
    ProxyCheck and Scamalytics; then the tuple of score 50 and source
    Default is written to the risk cache, and returned. *)
Theorem getRiskScore_default (E : env) (h : host) (A : jstring) :
  cache_check E (store h !! CONFIG.riskCache) A = None ->
  ipqsKey (script_args E) = []
  \/ (ipqs_score (ipqs_answer E A) = None
      /\ forallb printable (ipqs_fallback_logged (ipqs_answer E A)) = true) ->
  proxycheck_score (proxycheck_answer E A) A = None ->
  parseScamalyticsScore (scamalytics_answer E A) = None ->
  let text :=
    JSON_stringify E
      (VObj [(lit "ip", VStr A); (lit "score", VNum (Num.of_N 50));
             (lit "source", VStr (lit "Default"))]) in
  let requests :=
    match ipqsKey (script_args E) with
    | [] => []
    | key => [EvHttp (CONFIG.ipqs key A) None]
    end ++ [EvHttp (CONFIG.proxyCheck A) None;
            EvHttp (CONFIG.scamalytics A) None] in
  getRiskScore E A h
  = (Ok {| score := VNum (Num.of_N 50); source := VStr (lit "Default") |},
     {| store := <[CONFIG.riskCache := text]> (store h);
        trace := trace h ++ requests ++ [EvStoreWrite text CONFIG.riskCache] |}).
Proof.
  intros Hmiss Htier1 Htier2 Htier3 text requests.
  rewrite (getRiskScore_miss _ _ _ Hmiss).
  unfold fallback_renders, resolved, resolved23, requests.
  rewrite Htier2, Htier3.
  destruct (ipqsKey (script_args E)) as [|k key].
  - reflexivity.
  - destruct Htier1 as [Hkey | [-> ->]]; [discriminate | reflexivity].
Qed.

(** C2 at the failing input.  A key is configured, the cache is empty, IPQS
    declines with [success: false] and a [message] object carrying its own
    [toString], and neither ProxyCheck nor Scamalytics yields a score: every
    premise of the claim holds.  The fall-back line that follows the IPQS
    block cannot render the message: [getRiskScore] raises a TypeError after
    the IPQS request, asks neither of the other providers and persists
    nothing. *)
Lemma getRiskScore_fallback_line_raises :
  (cache_check Scenario.ipqs_declines
     (store Scenario.fresh !! CONFIG.riskCache) Scenario.ip = None
   /\ ipqs_score (ipqs_answer Scenario.ipqs_declines Scenario.ip) = None
   /\ proxycheck_score (proxycheck_answer Scenario.ipqs_declines Scenario.ip)
        Scenario.ip = None
   /\ parseScamalyticsScore
        (scamalytics_answer Scenario.ipqs_declines Scenario.ip) = None)
  /\ getRiskScore Scenario.ipqs_declines Scenario.ip Scenario.fresh
     = (Throw TypeError,
        {| store := store Scenario.fresh;
           trace := [EvHttp (CONFIG.ipqs (lit "KEY") Scenario.ip) None] |}).
Proof.
  split; [repeat split; reflexivity|].
  rewrite getRiskScore_miss by reflexivity. reflexivity.
Qed.

(** ** C3: what a resolved risk looks like *)

Lemma take_digits_are_digits (n : nat) (s : jstring) :
  forallb is_digit (take_digits n s) = true
  /\ (List.length (take_digits n s) <= n)%nat.
Proof.
  revert s; induction n as [|n IH]; intros [|c s]; simpl; try (split; [reflexivity | lia]).
  destruct (is_digit c) eqn:Hc; simpl.
  - destruct (IH s) as [Hd Hl]. rewrite Hc, Hd. split; [reflexivity | lia].
  - split; [reflexivity | lia].
Qed.

Lemma digits_fold_bound (ds : jstring) (acc : N) :
  forallb is_digit ds = true ->
  fold_left (fun a c => 10 * a + (c - 48)) ds acc
  < (acc + 1) * 10 ^ N.of_nat (List.length ds).
Proof.
  revert acc; induction ds as [|c ds IH]; intros acc Hd.
  - simpl. lia.
  - simpl in Hd. apply andb_true_iff in Hd as [Hc Hds].
    unfold is_digit in Hc. apply andb_true_iff in Hc as [Hlo Hhi].
    apply N.leb_le in Hlo, Hhi.
    cbn [fold_left List.length]. specialize (IH (10 * acc + (c - 48)) Hds).
    rewrite Nat2N.inj_succ, N.pow_succ_r'.
    eapply N.lt_le_trans; [exact IH|].
    assert (Hd : c - 48 <= 9) by lia.
    generalize (10 ^ N.of_nat (List.length ds)), (c - 48), Hd.
    intros P d Hd9. nia.
Qed.

Lemma fraud_score_match_digits (s ds : jstring) :
  fraud_score_match s = Some ds -> exists s', ds = take_digits 3 s'.
Proof.
  induction s as [|c s IH]; cbn [fraud_score_match].
  - discriminate.
  - unfold fraud_score_here at 1.
    destruct (starts_with_ci _ (c :: s)); [|exact IH].
    destruct (take_digits 3 _) eqn:Ht; [exact IH|].
    intros Hds; injection Hds as <-. eauto.
Qed.

Lemma parseScamalyticsScore_bound (html : option jstring) (x : num) :
  parseScamalyticsScore html = Some x ->
  exists n, n <= 999 /\ x = Num.of_N n.
Proof.
  destruct html as [s|]; [|discriminate]. unfold parseScamalyticsScore.
  destruct (fraud_score_match s) as [ds|] eqn:Hm; [|discriminate].
  intros Hx; injection Hx as <-.
  destruct (fraud_score_match_digits _ _ Hm) as [s' ->].
  destruct (take_digits_are_digits 3 s') as [Hd Hl].
  exists (fold_left (fun a c => 10 * a + (c - 48)) (take_digits 3 s') 0).
  split; [|reflexivity].
  pose proof (digits_fold_bound _ 0 Hd) as Hb.
  assert (10 ^ N.of_nat (List.length (take_digits 3 s')) <= 10 ^ 3)
    by (apply N.pow_le_mono_r; lia).
  change (10 ^ 3) with 1000 in *. lia.
Qed.

(** C3 as stated fails: with no key, no ProxyCheck answer and a
    Scamalytics page reading Fraud Score: 999, the resolved score is 999;
    and with a key and an IPQS answer whose [fraud_score] is 150, it is
    150. *)
Lemma getRiskScore_score_above_100 :
  fst (getRiskScore Scenario.scam_999 Scenario.ip Scenario.fresh)
  = Ok {| score := VNum (Num.of_N 999); source := VStr (lit "Scamalytics") |}
  /\ ~ score_in_range (VNum (Num.of_N 999))
  /\ fst (getRiskScore Scenario.ipqs_150 Scenario.ip Scenario.fresh)
     = Ok {| score := VNum (Num.of_N 150); source := VStr (lit "IPQS") |}
  /\ ~ score_in_range (VNum (Num.of_N 150))
  /\ ~ (forall E ip h, exists r h',
          getRiskScore E ip h = (Ok r, h') /\ score_in_range (score r)).
Proof.
  assert (Hout : ~ score_in_range (VNum (Num.of_N 999))).
  { intros (n & Hn & _ & Hhi). injection Hn as <-. discriminate. }
  assert (Hout' : ~ score_in_range (VNum (Num.of_N 150))).
  { intros (n & Hn & _ & Hhi). injection Hn as <-. discriminate. }
  split; [reflexivity|]. split; [exact Hout|].
  split; [reflexivity|]. split; [exact Hout'|].
  intros Hall.
  destruct (Hall Scenario.scam_999 Scenario.ip Scenario.fresh)
    as (r & h' & Hrun & Hrange).
  apply (f_equal fst) in Hrun.
  change (Ok {| score := VNum (Num.of_N 999);
                source := VStr (lit "Scamalytics") |} = Ok r) in Hrun.
  injection Hrun as <-. now apply Hout.
Qed.

(** C3, amended.  Whenever the provider values that go into a logged line
    can be rendered as text -- the IPQS [success] and [message] on the
    fall-back line, and the IPQS [fraud_score] or ProxyCheck [risk] after it
    has been cached -- [getRiskScore] returns a result.  Whenever it returns
    one: on a cache hit it is the cached score and source, whatever they
    are; on a miss the source is one of IPQS, ProxyCheck, Scamalytics and
    Default, and the score is not range-checked: it is the [fraud_score] of
    the IPQS answer, the [risk] of the ProxyCheck answer, the whole number
    up to 999 that [parseScamalyticsScore] reads off the page, or 50 for
    Default. *)
Theorem getRiskScore_total (E : env) (h : host) (ip : jstring) :
  ((forall fraud_score,
      ipqs_score (ipqs_answer E ip) = Some fraud_score ->
      printable fraud_score = true) ->
   forallb printable (ipqs_fallback_logged (ipqs_answer E ip)) = true ->
   (forall risk,
      proxycheck_score (proxycheck_answer E ip) ip = Some risk ->
      printable risk = true) ->
   exists r h', getRiskScore E ip h = (Ok r, h'))
  /\ (forall r h',
        getRiskScore E ip h = (Ok r, h') ->
        match cache_check E (store h !! CONFIG.riskCache) ip with
        | Some c => r = c
        | None =>
          (source r = VStr (lit "IPQS")
           /\ ipqsKey (script_args E) <> []
           /\ ipqs_score (ipqs_answer E ip) = Some (score r))
          \/ (source r = VStr (lit "ProxyCheck")
              /\ proxycheck_score (proxycheck_answer E ip) ip
                 = Some (score r))
          \/ (source r = VStr (lit "Scamalytics")
              /\ proxycheck_score (proxycheck_answer E ip) ip = None
              /\ exists n,
                   parseScamalyticsScore (scamalytics_answer E ip)
                   = Some (Num.of_N n)
                   /\ n <= 999 /\ score r = VNum (Num.of_N n))
          \/ (source r = VStr (lit "Default")
              /\ proxycheck_score (proxycheck_answer E ip) ip = None
              /\ parseScamalyticsScore (scamalytics_answer E ip) = None
              /\ score r = VNum (Num.of_N 50))
        end).
Proof.
  assert (H23 :
    (source (resolved23 E ip) = VStr (lit "ProxyCheck")
     /\ proxycheck_score (proxycheck_answer E ip) ip
        = Some (score (resolved23 E ip)))
    \/ (source (resolved23 E ip) = VStr (lit "Scamalytics")
        /\ proxycheck_score (proxycheck_answer E ip) ip = None
        /\ exists n,
             parseScamalyticsScore (scamalytics_answer E ip)
             = Some (Num.of_N n)
             /\ n <= 999 /\ score (resolved23 E ip) = VNum (Num.of_N n))
    \/ (source (resolved23 E ip) = VStr (lit "Default")
        /\ proxycheck_score (proxycheck_answer E ip) ip = None
        /\ parseScamalyticsScore (scamalytics_answer E ip) = None
        /\ score (resolved23 E ip) = VNum (Num.of_N 50))).
  { unfold resolved23.
    destruct (proxycheck_score _ ip); [left; auto|].
    destruct (parseScamalyticsScore _) as [x|] eqn:Hx.
    - right; left. split; [reflexivity|]. split; [reflexivity|].
      destruct (parseScamalyticsScore_bound _ _ Hx) as (n & Hn & ->).
      now exists n.
    - right; right. auto. }
  split.
  - intros Hipqs Hline Hproxy.
    destruct (cache_check E (store h !! CONFIG.riskCache) ip) as [c|] eqn:Hc.
    { exists c, h. now apply getRiskScore_hit. }
    rewrite (getRiskScore_miss _ _ _ Hc).
    assert (Hrenders : fallback_renders E ip = true).
    { unfold fallback_renders. destruct (ipqsKey (script_args E)); [reflexivity|].
      now destruct (ipqs_score _). }
    rewrite Hrenders.
    assert (Hscore : printable (score (fst (resolved E ip))) = true).
    { assert (H23p : printable (score (resolved23 E ip)) = true).
      { unfold resolved23.
        destruct (proxycheck_score _ ip) as [x|] eqn:Hx; [now apply Hproxy|].
        now destruct (parseScamalyticsScore _). }
      unfold resolved. destruct (ipqsKey (script_args E)); [exact H23p|].
      destruct (ipqs_score _) as [f|] eqn:Hf; [now apply Hipqs | exact H23p]. }
    unfold saved. rewrite Hscore. eauto.
  - intros r h' Hrun.
    destruct (cache_check E (store h !! CONFIG.riskCache) ip) as [c|] eqn:Hc.
    { rewrite (getRiskScore_hit _ _ _ _ Hc) in Hrun. now injection Hrun as <-. }
    rewrite (getRiskScore_miss _ _ _ Hc) in Hrun.
    destruct (fallback_renders E ip); [|discriminate].
    injection Hrun as Hsaved _. apply saved_ok in Hsaved as [-> _].
    unfold resolved.
    destruct (ipqsKey (script_args E)) as [|k key] eqn:Hkey; [now right|].
    destruct (ipqs_score (ipqs_answer E ip)) eqn:Hf.
    + left. repeat split; try reflexivity. discriminate.
    + now right.
Qed.

(** ** The properties on concrete runs *)

Import Scenario.

(** C1 on a host whose cache holds the entry of [ip] (score 12, IPQS), and
    on two successive calls with no provider answering. *)
Lemma getRiskScore_cache_hit_witness :
  (nonempty (store warm !! CONFIG.riskCache) = Some cached_text
   /\ JSON_parse offline cached_text
      = Some (cache_entry ip (VNum (Num.of_N 12)) (VStr (lit "IPQS"))))
  /\ getRiskScore offline ip warm
     = (Ok {| score := VNum (Num.of_N 12); source := VStr (lit "IPQS") |}, warm)
  /\ getRiskScore offline ip (snd (getRiskScore offline ip fresh))
     = (Ok {| score := VNum (Num.of_N 50); source := VStr (lit "Default") |},
        snd (getRiskScore offline ip fresh)).
Proof.
  assert (Hstore : nonempty (store warm !! CONFIG.riskCache) = Some cached_text)
    by reflexivity.
  assert (Hparse : JSON_parse offline cached_text
                   = Some (cache_entry ip (VNum (Num.of_N 12))
                                          (VStr (lit "IPQS"))))
    by reflexivity.
  destruct (getRiskScore_cache_hit offline ip) as [Hhit Htwice].
  split; [split; assumption|].
  split; [exact (Hhit warm cached_text _ Hstore Hparse eq_refl eq_refl eq_refl)|].
  apply (Htwice fresh); [reflexivity|].
  intros _. split; [discriminate | reflexivity].
Defined.

(** C3 with no provider answering (Default), and with only the Scamalytics
    page answering. *)
Lemma getRiskScore_total_witness :
  (exists r h', getRiskScore offline ip fresh = (Ok r, h'))
  /\ (exists r h', getRiskScore scam_999 ip fresh = (Ok r, h')).
Proof.
  split.
  - apply (getRiskScore_total offline fresh ip);
      [intros f Hf; discriminate | reflexivity | intros x Hx; discriminate].
  - apply (getRiskScore_total scam_999 fresh ip);
      [intros f Hf; discriminate | reflexivity | intros x Hx; discriminate].
Defined.

(** C4 on a v6 endpoint answering the address 1.2.3.4. *)
Lemma fetchIPs_v6_guard_witness :
  opt_get (v6_answer v6_says_v4) (lit "ip") = VStr (lit "1.2.3.4")
  /\ exists r h', fetchIPs v6_says_v4 fresh = (Ok r, h')
                  /\ outIPv6 r = VNull /\ v6Raw r = VNull.
Proof.
  split; [reflexivity|].
  apply (fetchIPs_v6_guard v6_says_v4 fresh (lit "1.2.3.4"));
    reflexivity.
Defined.

(** C5 on a first event with no v6 address and no prior snapshot. *)
Lemma checkIPChange_reflexive_witness :
  let first := checkIPChange offline_event (VStr ip) (VStr ip) VNull fresh in
  isEvent (script_args offline_event) = true
  /\ fst first = Ok true
  /\ checkIPChange offline_event (VStr ip) (VStr ip) VNull (snd first)
     = (Ok false, snd first).
Proof.
  assert (Hevent : isEvent (script_args offline_event) = true) by reflexivity.
  destruct (checkIPChange_reflexive offline_event Hevent) as [Hsecond _].
  split; [exact Hevent|]. split; [reflexivity|].
  apply (Hsecond fresh _ ip ip VNull true).
  - left; reflexivity.
  - reflexivity.
  - intros _. split; [discriminate | reflexivity].
Defined.



(** C8 on an answer with isResidential: false, and with no answer at all. *)
Lemma getIPType_tiers_witness :
  getIPType datacenter fresh
  = (Ok {| ipType := lit "機房 IP"; ipSrc := lit "廣播 IP" |},
     observe [EvHttp CONFIG.ipType None] fresh)
  /\ getIPType offline fresh
     = (Ok {| ipType := lit "未知"; ipSrc := lit "未知" |},
        observe [EvHttp CONFIG.ipType None;
                 EvHttp CONFIG.ipTypeCard None] fresh).
Proof.
  split.
  - apply (getIPType_tiers datacenter fresh) with (b := false). reflexivity.
  - apply (getIPType_tiers offline fresh); reflexivity.
Defined.

(* ================================================================== *)
(** * Further properties of the script *)
(* ================================================================== *)

(** ** Splitting and joining *)

Lemma includes_unit (c : N) (s : jstring) :
  includes [c] s = true <-> In c s.
Proof.
  induction s as [|x s IH]; simpl.
  - split; [discriminate | tauto].
  - rewrite orb_true_iff, andb_true_r, N.eqb_eq, IH. split.
    + intros [-> | Hin]; auto.
    + intros [-> | Hin]; auto.
Qed.

Lemma includes_unit_false (c : N) (s : jstring) :
  includes [c] s = false <-> ~ In c s.
Proof.
  rewrite <- includes_unit.
  destruct (includes [c] s); split; try easy; intros Hn; now contradiction Hn.
Qed.

Lemma split_cons (sep c : N) (s : jstring) :
  c <> sep ->
  exists p ps, split sep s = p :: ps /\ split sep (c :: s) = (c :: p) :: ps.
Proof.
  intros Hc. simpl. apply N.eqb_neq in Hc. rewrite Hc.
  destruct s as [|x s]; simpl.
  - now exists [], [].
  - destruct (x =? sep).
    + now eexists _, _.
    + destruct (split sep s); now eexists _, _.
Qed.

Lemma split_not_nil (sep : N) (s : jstring) : split sep s <> [].
Proof.
  destruct s as [|c s]; simpl; [discriminate|].
  destruct (c =? sep); [discriminate|].
  destruct (split sep s); discriminate.
Qed.

Lemma split_no_sep (sep : N) (p : jstring) :
  ~ In sep p -> split sep p = [p].
Proof.
  induction p as [|c p IH]; intros Hno; simpl; [reflexivity|].
  destruct (N.eqb_spec c sep) as [-> | Hc].
  - contradiction Hno. now left.
  - rewrite IH; [reflexivity|]. intros Hin. apply Hno. now right.
Qed.

Lemma split_app_sep (sep : N) (p rest : jstring) :
  ~ In sep p -> split sep (p ++ sep :: rest) = p :: split sep rest.
Proof.
  induction p as [|c p IH]; intros Hno.
  - simpl. now rewrite N.eqb_refl.
  - cbn [app split].
    destruct (N.eqb_spec c sep) as [-> | Hc].
    + contradiction Hno. now left.
    + rewrite IH; [reflexivity|]. intros Hin. apply Hno. now right.
Qed.

(** Splitting undoes joining, for pieces that do not hold the separator. *)
Lemma split_join (sep : N) (parts : list jstring) :
  parts <> [] ->
  Forall (fun p => ~ In sep p) parts ->
  split sep (join [sep] parts) = parts.
Proof.
  induction parts as [|p parts IH]; intros Hne Hall; [contradiction|].
  inversion Hall as [|? ? Hp Hrest]; subst.
  destruct parts as [|q parts].
  - simpl. now apply split_no_sep.
  - change (join [sep] (p :: q :: parts))
      with (p ++ sep :: join [sep] (q :: parts)).
    rewrite split_app_sep by assumption.
    rewrite IH; [reflexivity | discriminate | assumption].
Qed.

Lemma split_pieces_clean (sep : N) (s : jstring) :
  Forall (fun p => ~ In sep p) (split sep s).
Proof.
  induction s as [|c s IH]; simpl.
  - constructor; [tauto | constructor].
  - destruct (N.eqb_spec c sep) as [-> | Hc].
    + constructor; [tauto | assumption].
    + destruct (split sep s) as [|p ps]; [repeat constructor|].
      * intros [Heq | []]. now apply Hc.
      * inversion IH as [|? ? Hp Hps]; subst. constructor; [|assumption].
        intros [Heq | Hin]; [now apply Hc | now apply Hp].
Qed.

(** Joining undoes splitting. *)
Lemma join_split (sep : N) (s : jstring) :
  join [sep] (split sep s) = s.
Proof.
  induction s as [|c s IH]; [reflexivity|].
  simpl. destruct (split sep s) as [|p ps] eqn:Hs.
  { now contradiction (split_not_nil sep s). }
  destruct (c =? sep) eqn:Hc.
  - apply N.eqb_eq in Hc as ->.
    change (join [sep] ([] :: p :: ps)) with (sep :: join [sep] (p :: ps)).
    now rewrite IH.
  - destruct ps as [|q qs].
    + simpl in *. now rewrite IH.
    + change (join [sep] ((c :: p) :: q :: qs))
        with (c :: join [sep] (p :: q :: qs)).
      now rewrite IH.
Qed.

Lemma join_snoc (sep : N) (parts : list jstring) (l : jstring) :
  parts <> [] ->
  join [sep] (parts ++ [l]) = join [sep] parts ++ sep :: l.
Proof.
  induction parts as [|p parts IH]; intros Hne; [contradiction|].
  destruct parts as [|q parts]; [reflexivity|].
  change (join [sep] ((p :: q :: parts) ++ [l]))
    with (p ++ sep :: join [sep] ((q :: parts) ++ [l])).
  rewrite IH by discriminate.
  change (join [sep] (p :: q :: parts))
    with (p ++ sep :: join [sep] (q :: parts)).
  now rewrite <- app_assoc.
Qed.

Lemma join_has_sep (sep : N) (p q : jstring) (rest : list jstring) :
  In sep (join [sep] (p :: q :: rest)).
Proof.
  change (join [sep] (p :: q :: rest))
    with (p ++ sep :: join [sep] (q :: rest)).
  apply in_or_app. right. now left.
Qed.

(** ** maskIP *)

Lemma stars_clean (sep : N) (n : nat) :
  sep <> 42 -> Forall (fun p => ~ In sep p) (stars n).
Proof.
  intros Hsep. induction n; simpl; constructor; try assumption.
  intros [Heq | []]. now apply Hsep.
Qed.

Lemma map_star (l : list jstring) :
  map (fun _ => lit "*") l = stars (List.length l).
Proof.
  induction l as [|x l IH]; [reflexivity|].
  cbn [map List.length]. rewrite IH. reflexivity.
Qed.

Lemma middle_length {A} (x : A) (l : list A) :
  List.length (removelast (List.tl (x :: l))) = (List.length l - 1)%nat.
Proof.
  simpl. induction l as [|y l IH]; [reflexivity|].
  destruct l; simpl in *; [reflexivity | lia].
Qed.

(** The masked form of a v6 address, as the list of its groups. *)
Lemma maskIP_v6_groups (ip : jstring) (first : jstring) (rest : list jstring) :
  split 58 ip = first :: rest ->
  (2 <= List.length rest)%nat ->
  maskIP ip
  = join [58] (first :: stars (List.length rest - 1) ++ [List.last rest []]).
Proof.
  intros Hsplit Hlen.
  assert (Hcolon : includes (lit ":") ip = true).
  { change (lit ":") with [58]. apply includes_unit.
    rewrite <- (join_split 58 ip), Hsplit.
    destruct rest as [|q rest]; [simpl in Hlen; lia|]. apply join_has_sep. }
  unfold maskIP. destruct ip as [|c ip]; [discriminate|].
  rewrite Hcolon, Hsplit.
  replace (List.length (first :: rest) <=? 2)%nat with false
    by (symmetry; apply Nat.leb_gt; simpl; lia).
  rewrite map_star, middle_length.
  change (nth 0 (first :: rest) []) with first.
  assert (Hlast : List.last (first :: rest) [] = List.last rest []).
  { destruct rest; [simpl in Hlen; lia | reflexivity]. }
  rewrite Hlast. change (lit ":") with [58].
  destruct (List.length rest - 1)%nat as [|n] eqn:Hn; [lia|].
  change (stars (S n)) with ([42] :: stars n).
  change (join [58] (first :: ([42] :: stars n) ++ [List.last rest []]))
    with (first ++ 58 :: join [58] (([42] :: stars n) ++ [List.last rest []])).
  rewrite join_snoc by discriminate. reflexivity.
Qed.

Lemma maskIP_unfold (ip : jstring) :
  maskIP ip
  = if includes [58] ip then
      match split 58 ip with
      | first :: rest =>
        if (2 <=? List.length rest)%nat
        then join [58] (first :: stars (List.length rest - 1)
                                 ++ [List.last rest []])
        else ip
      | [] => ip
      end
    else
      match split 46 ip with
      | [a; _; _; d] => a ++ lit ".*.*." ++ d
      | _ => ip
      end.
Proof.
  destruct (includes [58] ip) eqn:Hcolon.
  - destruct (split 58 ip) as [|first rest] eqn:Hsplit.
    { now contradiction (split_not_nil 58 ip). }
    destruct (Nat.leb_spec 2 (List.length rest)) as [Hlen | Hlen].
    + now apply maskIP_v6_groups.
    + unfold maskIP. destruct ip as [|c ip]; [reflexivity|].
      change (lit ":") with [58]. rewrite Hcolon, Hsplit.
      replace (List.length (first :: rest) <=? 2)%nat with true; [reflexivity|].
      symmetry. apply Nat.leb_le. simpl. lia.
  - unfold maskIP. destruct ip as [|c ip]; [reflexivity|].
    change (lit ":") with [58]. rewrite Hcolon.
    destruct (split 46 (c :: ip)) as [|a [|b [|c' [|d [|e l]]]]]; reflexivity.
Qed.

Lemma maskIP_v6_split (ip first : jstring) (rest : list jstring) :
  split 58 ip = first :: rest ->
  (2 <= List.length rest)%nat ->
  split 58 (maskIP ip)
  = first :: stars (List.length rest - 1) ++ [List.last rest []].
Proof.
  intros Hsplit Hlen. rewrite (maskIP_v6_groups _ _ _ Hsplit Hlen).
  apply split_join; [discriminate|].
  pose proof (split_pieces_clean 58 ip) as Hclean. rewrite Hsplit in Hclean.
  inversion Hclean as [|? ? Hfirst Hrest]; subst.
  constructor; [assumption|]. apply Forall_app. split.
  - now apply stars_clean.
  - constructor; [|constructor].
    destruct rest as [|q rest0]; [simpl in Hlen; lia|].
    assert (Hin : In (List.last (q :: rest0) []) (q :: rest0)).
    { clear. revert q. induction rest0 as [|x l IH]; intros q.
      - now left.
      - right. apply IH. }
    rewrite Forall_forall in Hrest.
    apply Hrest. now apply list_elem_of_In.
Qed.

Lemma maskIP_v4_split (ip a b c d : jstring) :
  ~ In 58 ip ->
  split 46 ip = [a; b; c; d] ->
  maskIP ip = a ++ lit ".*.*." ++ d
  /\ split 46 (maskIP ip) = [a; [42]; [42]; d].
Proof.
  intros Hno Hsplit.
  assert (Hmask : maskIP ip = a ++ lit ".*.*." ++ d).
  { rewrite maskIP_unfold.
    apply includes_unit_false in Hno. now rewrite Hno, Hsplit. }
  split; [exact Hmask|]. rewrite Hmask.
  pose proof (split_pieces_clean 46 ip) as Hclean. rewrite Hsplit in Hclean.
  change (a ++ lit ".*.*." ++ d) with (join [46] [a; [42]; [42]; d]).
  apply split_join; [discriminate|].
  inversion Hclean as [|? ? Ha Hbcd]; subst.
  inversion Hbcd as [|? ? _ Hcd]; subst.
  inversion Hcd as [|? ? _ Hd]; subst.
  inversion Hd as [|? ? Hd' _]; subst.
  assert (Hstar : ~ In 46 [42]) by (intros [Heq | []]; discriminate).
  repeat (constructor; [assumption|]). constructor.
Qed.

(** X1.  [maskIP] on an address with a colon.  With at least three
    colon-separated groups the mask keeps the number of groups, keeps the
    first and the last group, and turns every group in between into [*]: no
    middle group survives. *)
Theorem maskIP_v6_shape (ip first : jstring) (rest : list jstring) :
  split 58 ip = first :: rest ->
  (2 <= List.length rest)%nat ->
  exists middle,
    split 58 (maskIP ip) = first :: middle ++ [List.last rest []]
    /\ List.length middle = (List.length rest - 1)%nat
    /\ Forall (fun group => group = lit "*") middle.
Proof.
  intros Hsplit Hlen. exists (stars (List.length rest - 1)).
  split; [now apply maskIP_v6_split|]. unfold stars.
  split; [apply List.repeat_length|].
  apply Forall_forall. intros group Hin.
  apply list_elem_of_In in Hin. now apply repeat_spec in Hin.
Qed.

Lemma maskIP_v6_shape_witness :
  exists middle,
    split 58 (maskIP (lit "2001:db8:85a3::7334"))
    = lit "2001" :: middle ++ [lit "7334"]
    /\ List.length middle = 3%nat
    /\ Forall (fun group => group = lit "*") middle.
Proof.
  apply (maskIP_v6_shape (lit "2001:db8:85a3::7334") (lit "2001")
           [lit "db8"; lit "85a3"; []; lit "7334"]).
  - reflexivity.
  - simpl. lia.
Defined.

(** X2.  [maskIP] on an address without a colon.  With exactly four
    dot-separated parts the mask keeps the first and the last part and
    replaces the two in between by [*]; the result still has four parts. *)
Theorem maskIP_v4_shape (ip a b c d : jstring) :
  ~ In 58 ip ->
  split 46 ip = [a; b; c; d] ->
  maskIP ip = a ++ lit ".*.*." ++ d
  /\ split 46 (maskIP ip) = [a; lit "*"; lit "*"; d].
Proof.
  intros Hno Hsplit. now apply (maskIP_v4_split ip a b c d).
Qed.

Lemma maskIP_v4_shape_witness :
  maskIP (lit "203.0.113.7") = lit "203.*.*.7"
  /\ split 46 (maskIP (lit "203.0.113.7"))
     = [lit "203"; lit "*"; lit "*"; lit "7"].
Proof.
  apply (maskIP_v4_shape (lit "203.0.113.7") (lit "203") (lit "0")
           (lit "113") (lit "7")).
  - intros Hin. vm_compute in Hin. intuition discriminate.
  - reflexivity.
Defined.

(** X3.  [maskIP] is idempotent: a masked address is its own mask, for every
    string. *)
Theorem maskIP_idempotent (ip : jstring) :
  maskIP (maskIP ip) = maskIP ip.
Proof.
  pose proof (maskIP_unfold ip) as Hm.
  destruct (includes [58] ip) eqn:Hcolon.
  - destruct (split 58 ip) as [|first rest] eqn:Hsplit;
      [now contradiction (split_not_nil 58 ip)|].
    destruct (Nat.leb_spec 2 (List.length rest)) as [Hlen | Hlen];
      [|now rewrite !Hm].
    pose proof (maskIP_v6_split _ _ _ Hsplit Hlen) as Hshape.
    rewrite (maskIP_v6_groups _ _ _ Hshape).
    + unfold stars; rewrite List.length_app, List.repeat_length. cbn [List.length].
      replace (List.length rest - 1 + 1 - 1)%nat
        with (List.length rest - 1)%nat by lia.
      now rewrite List.last_last.
    + unfold stars; rewrite List.length_app, List.repeat_length. cbn [List.length]. lia.
  - destruct (split 46 ip) as [|a [|b [|c [|d [|e l]]]]] eqn:Hsplit;
      try (now rewrite !Hm).
    apply includes_unit_false in Hcolon.
    destruct (maskIP_v4_split _ _ _ _ _ Hcolon Hsplit) as [Hmask Hshape].
    rewrite (maskIP_unfold (maskIP ip)), Hshape.
    replace (includes [58] (maskIP ip)) with false; [now rewrite Hmask|].
    symmetry. apply includes_unit_false. rewrite Hmask.
    intros Hin. apply Hcolon. rewrite <- (join_split 46 ip), Hsplit.
    change (join [46] [a; b; c; d])
      with (a ++ 46 :: b ++ 46 :: c ++ 46 :: d).
    apply in_app_or in Hin as [Hin | Hin].
    + apply in_or_app. now left.
    + apply in_app_or in Hin as [Hin | Hin].
      * simpl in Hin. repeat destruct Hin as [Hin | Hin]; try discriminate.
        contradiction.
      * apply in_or_app. right. right.
        apply in_or_app. right. right.
        apply in_or_app. right. now right.
Qed.

(** ** parseScamalyticsScore *)

Lemma skip_non_digits_gap (gap rest : jstring) :
  forallb (fun c => negb (is_digit c)) gap = true ->
  skip_non_digits (gap ++ rest) = skip_non_digits rest.
Proof.
  induction gap as [|c gap IH]; intros Hgap; [reflexivity|].
  simpl in Hgap. apply andb_true_iff in Hgap as [Hc Hgap].
  apply negb_true_iff in Hc. cbn [app skip_non_digits]. rewrite Hc. auto.
Qed.

Lemma take_digits_run (n : nat) (ds post : jstring) :
  forallb is_digit ds = true ->
  run_ends post = true ->
  take_digits n (ds ++ post) = take n ds.
Proof.
  revert ds; induction n as [|n IH]; intros ds Hds Hpost.
  - now destruct (ds ++ post).
  - destruct ds as [|c ds].
    + destruct post as [|c post]; [reflexivity|].
      simpl in *. apply negb_true_iff in Hpost. now rewrite Hpost.
    + simpl in Hds. apply andb_true_iff in Hds as [Hc Hds].
      cbn [app take_digits take]. rewrite Hc. f_equal. auto.
Qed.

(** X4.  [parseScamalyticsScore].  When the first occurrence of the words
    Fraud Score, in any letter case, is at offset [n] and is followed by
    units that are not digits and then by the digit run [ds], the parsed
    score is the number written by the first three digits of [ds]: a longer
    run is cut after three digits. *)
Theorem parseScamalyticsScore_first_occurrence (n : nat)
    (s gap ds post : jstring) :
  first_words_at n s = true ->
  drop (n + 11) s = gap ++ ds ++ post ->
  forallb (fun c => negb (is_digit c)) gap = true ->
  ds <> [] ->
  forallb is_digit ds = true ->
  run_ends post = true ->
  parseScamalyticsScore (Some s) = Some (number_of_digits (take 3 ds)).
Proof.
  intros Hfirst Hdrop Hgap Hne Hds Hpost.
  unfold parseScamalyticsScore.
  assert (Hmatch : fraud_score_match s = Some (take 3 ds)); [|now rewrite Hmatch].
  revert s Hfirst Hdrop. induction n as [|n IH]; intros s Hfirst Hdrop.
  - cbn [first_words_at] in Hfirst. cbn [Nat.add] in Hdrop.
    assert (Hhere : fraud_score_here s = Some (take 3 ds)).
    { unfold fraud_score_here. rewrite Hfirst, Hdrop.
      rewrite skip_non_digits_gap by assumption.
      destruct ds as [|d ds]; [contradiction|].
      assert (Hd : is_digit d = true)
        by (simpl in Hds; now apply andb_true_iff in Hds as [? _]).
      cbn [app skip_non_digits]. rewrite Hd.
      change (d :: ds ++ post) with ((d :: ds) ++ post).
      rewrite take_digits_run by assumption. reflexivity. }
    destruct s; cbn [fraud_score_match]; now rewrite Hhere.
  - cbn [first_words_at] in Hfirst.
    apply andb_true_iff in Hfirst as [Hnot Hrest].
    apply negb_true_iff in Hnot.
    destruct s as [|c s]; [discriminate|].
    cbn [fraud_score_match]. unfold fraud_score_here at 1. rewrite Hnot.
    apply IH; assumption.
Qed.

Lemma parseScamalyticsScore_first_occurrence_witness :
  parseScamalyticsScore (Some (lit "<b>fraud score</b> is 1234 of 100"))
  = Some (Num.of_N 123).
Proof.
  apply (parseScamalyticsScore_first_occurrence 3
           (lit "<b>fraud score</b> is 1234 of 100")
           (lit "</b> is ") (lit "1234") (lit " of 100"));
    try reflexivity.
  discriminate.
Defined.

Lemma fraud_score_match_words (s ds : jstring) :
  fraud_score_match s = Some ds ->
  includes_ci (lit "Fraud Score") s = true.
Proof.
  induction s as [|c s IH]; cbn [fraud_score_match includes_ci].
  - discriminate.
  - unfold fraud_score_here at 1.
    destruct (starts_with_ci (lit "Fraud Score") (c :: s)); [reflexivity|].
    intros Hm. rewrite (IH Hm). apply orb_true_r.
Qed.

(** X5.  [parseScamalyticsScore].  A score is only ever read off a page that
    holds the words Fraud Score (in some letter case), and it is a whole
    number from 0 to 999; a missing page gives no score. *)
Theorem parseScamalyticsScore_sound (html : option jstring) (x : num) :
  parseScamalyticsScore html = Some x ->
  exists s n, html = Some s
              /\ includes_ci (lit "Fraud Score") s = true
              /\ n <= 999 /\ x = Num.of_N n.
Proof.
  intros Hx. destruct (parseScamalyticsScore_bound _ _ Hx) as (n & Hn & ->).
  destruct html as [s|]; [|discriminate].
  exists s, n. repeat split; try assumption.
  unfold parseScamalyticsScore in Hx.
  destruct (fraud_score_match s) as [ds|] eqn:Hm; [|discriminate].
  now apply fraud_score_match_words in Hm.
Qed.

Lemma parseScamalyticsScore_sound_witness :
  exists s n, Some (lit "Fraud Score: 42") = Some s
              /\ includes_ci (lit "Fraud Score") s = true
              /\ n <= 999 /\ Num.of_N 42 = Num.of_N n.
Proof.
  apply (parseScamalyticsScore_sound (Some (lit "Fraud Score: 42"))
           (Num.of_N 42)).
  reflexivity.
Defined.

(** ** Policy search *)

Lemma find_app_first {A} (f : A -> bool) (pre post : list A) (x : A) :
  Forall (fun y => f y = false) pre -> f x = true ->
  find f (pre ++ x :: post) = Some x.
Proof.
  induction 1 as [|y pre Hy _ IH]; intros Hx; simpl.
  - now rewrite Hx.
  - rewrite Hy. auto.
Qed.

(** X6.  [findPolicyInRecent].  Among the newest [limit] requests the first
    one whose URL matches decides alone: its policy name is the result, and
    when that name is empty the result is [null] even if later requests
    match with a name.  A match beyond the newest [limit] requests is never
    seen. *)
Theorem policy_in_first_match (pattern : jstring -> bool) (limit : nat)
    (pre post : list request) (r : request) :
  Forall (fun i => pattern (URL i) = false) pre ->
  pattern (URL r) = true ->
  policy_in pattern limit (Some (pre ++ r :: post))
  = if (List.length pre <? limit)%nat then nonempty (Some (policyName r))
    else None.
Proof.
  intros Hpre Hr. unfold policy_in.
  destruct (Nat.ltb_spec (List.length pre) limit) as [Hin | Hout].
  - rewrite take_app_ge by lia.
    replace (limit - List.length pre)%nat
      with (S (limit - List.length pre - 1)) by lia.
    cbn [take].
    now rewrite (find_app_first _ _ _ _ Hpre Hr).
  - rewrite take_app_le by lia.
    rewrite find_none_all; [reflexivity|].
    apply Forall_take. assumption.
Qed.

Lemma policy_in_first_match_witness :
  policy_in probe_pattern 2
    (Some ([Samples.page] ++ Samples.unnamed_probe :: [Samples.named_probe]))
  = None
  /\ policy_in probe_pattern 1
       (Some ([Samples.page] ++ Samples.named_probe :: []))
     = None
  /\ policy_in probe_pattern 2
       (Some ([Samples.page] ++ Samples.named_probe :: []))
     = Some (lit "Proxy").
Proof.
  split; [|split].
  - apply (policy_in_first_match probe_pattern 2 [Samples.page]
             [Samples.named_probe] Samples.unnamed_probe).
    + repeat constructor.
    + reflexivity.
  - apply (policy_in_first_match probe_pattern 1 [Samples.page] []
             Samples.named_probe).
    + repeat constructor.
    + reflexivity.
  - apply (policy_in_first_match probe_pattern 2 [Samples.page] []
             Samples.named_probe).
    + repeat constructor.
    + reflexivity.
Defined.
(** ** Policy discovery across runs *)

Lemma getPolicy_unfold (E : env) (h : host) :
  getPolicy E h =
  match policy_in probe_pattern 10 (recent_requests E (recent_count h)) with
  | Some p => (Ok p, persist_policy p [EvRecent] h)
  | None =>
    match policy_in probe_pattern 5
            (recent_requests E (S (recent_count h))) with
    | Some p => (Ok p, persist_policy p [EvRecent; EvWait 500; EvRecent] h)
    | None =>
      (Ok match nonempty (store h !! CONFIG.lastPolicy) with
          | Some p => p
          | None => lit "Unknown"
          end,
       observe [EvRecent; EvWait 500; EvRecent] h)
    end
  end.
Proof.
  assert (Hcount : recent_count
            {| store := store h;
               trace := (trace h ++ [EvRecent]) ++ [EvWait CONFIG.policyRetryDelay] |}
          = S (recent_count h)).
  { unfold recent_count; simpl.
    rewrite !List.filter_app, !List.length_app; simpl. lia. }
  unfold getPolicy, findPolicyInRecent, bind, surgeAPI_recent, ret,
    store_write, store_read, wait, emit, persist_policy, observe.
  destruct (policy_in probe_pattern 10 _) as [p|]; cbn [store trace];
    [now rewrite <- !app_assoc|].
  rewrite Hcount.
  destruct (policy_in probe_pattern 5 _) as [p|]; cbn [store trace].
  - now rewrite <- !app_assoc.
  - destruct (nonempty _); now rewrite <- !app_assoc.
Qed.

Lemma policy_in_nonempty (pattern : jstring -> bool) (limit : nat)
    (res : option (list request)) (p : jstring) :
  policy_in pattern limit res = Some p -> nonempty (Some p) = Some p.
Proof.
  unfold policy_in. destruct (option_map policyName _) as [[|c s]|];
    simpl; try discriminate.
  now intros Hp; injection Hp as <-.
Qed.

(** X7.  [getPolicy].  The answer of one run is what later runs fall back
    to: when a run returned [p], any later run that starts from the store it
    left and finds no probe in either search returns [p] again, and writes
    nothing.  (A discovered name was persisted; a name taken from the store
    is still there; and after Unknown the store still holds no name.) *)
Theorem getPolicy_inherits (E E' : env) (h h' h2 : host) (p : jstring) :
  getPolicy E h = (Ok p, h') ->
  store h2 = store h' ->
  policy_in probe_pattern 10 (recent_requests E' (recent_count h2)) = None ->
  policy_in probe_pattern 5 (recent_requests E' (S (recent_count h2))) = None ->
  getPolicy E' h2
  = (Ok p, {| store := store h2;
              trace := trace h2 ++ [EvRecent; EvWait 500; EvRecent] |}).
Proof.
  intros Hrun Hstore Hfirst Hsecond.
  rewrite getPolicy_unfold, Hfirst, Hsecond, Hstore.
  rewrite getPolicy_unfold in Hrun. unfold observe. rewrite Hstore.
  destruct (policy_in probe_pattern 10 _) as [q|] eqn:H10.
  - injection Hrun as <- <-. unfold persist_policy. cbn [store].
    rewrite lookup_insert_eq. now rewrite (policy_in_nonempty _ _ _ _ H10).
  - destruct (policy_in probe_pattern 5 _) as [q|] eqn:H5.
    + injection Hrun as <- <-. unfold persist_policy. cbn [store].
      rewrite lookup_insert_eq. now rewrite (policy_in_nonempty _ _ _ _ H5).
    + injection Hrun as <- <-. unfold observe. cbn [store].
      now destruct (nonempty (store h !! CONFIG.lastPolicy)).
Qed.

Lemma getPolicy_inherits_witness :
  fst (getPolicy Scenario.log_never
         (snd (getPolicy Scenario.log_at_once Scenario.fresh)))
  = Ok (lit "Tokyo").
Proof.
  rewrite (getPolicy_inherits Scenario.log_at_once Scenario.log_never
             Scenario.fresh
             (snd (getPolicy Scenario.log_at_once Scenario.fresh))
             (snd (getPolicy Scenario.log_at_once Scenario.fresh))
             (lit "Tokyo"));
    reflexivity.
Defined.

(** ** Risk score: tiers and cache *)

Lemma getRiskScore_default_witness :
  fst (getRiskScore Scenario.offline Scenario.ip Scenario.fresh)
  = Ok {| score := VNum (Num.of_N 50); source := VStr (lit "Default") |}
  /\ fst (getRiskScore Samples.ipqs_refuses Scenario.ip Scenario.fresh)
     = Ok {| score := VNum (Num.of_N 50); source := VStr (lit "Default") |}
  /\ List.length
       (trace (snd (getRiskScore Samples.ipqs_refuses Scenario.ip
                      Scenario.fresh)))
     = 4%nat.
Proof.
  rewrite (getRiskScore_default Scenario.offline Scenario.fresh Scenario.ip);
    [|reflexivity | now left | reflexivity | reflexivity].
  rewrite (getRiskScore_default Samples.ipqs_refuses Scenario.fresh
             Scenario.ip);
    [|reflexivity | right; split; reflexivity | reflexivity | reflexivity].
  repeat split; reflexivity.
Defined.

(** X9.  [getRiskScore] and [saveAndReturn].  With a key configured, a cache
    miss and an IPQS answer that has a truthy [success] and a [fraud_score],
    the only request of the run is the IPQS one: ProxyCheck and Scamalytics
    are never contacted.  The entry is written before the line that logs it,
    so it is persisted whether or not the score can be rendered; the result
    is that score with source IPQS when it can. *)
Theorem getRiskScore_ipqs_first (E : env) (h : host) (A : jstring)
    (fraud_score : value) :
  cache_check E (store h !! CONFIG.riskCache) A = None ->
  ipqsKey (script_args E) <> [] ->
  ipqs_score (ipqs_answer E A) = Some fraud_score ->
  let text :=
    JSON_stringify E
      (VObj [(lit "ip", VStr A); (lit "score", fraud_score);
             (lit "source", VStr (lit "IPQS"))]) in
  getRiskScore E A h
  = (if printable fraud_score
     then Ok {| score := fraud_score; source := VStr (lit "IPQS") |}
     else Throw TypeError,
     {| store := <[CONFIG.riskCache := text]> (store h);
        trace := trace h
                 ++ [EvHttp (CONFIG.ipqs (ipqsKey (script_args E)) A) None;
                     EvStoreWrite text CONFIG.riskCache] |}).
Proof.
  intros Hmiss Hkey Hscore text.
  rewrite (getRiskScore_miss _ _ _ Hmiss). unfold fallback_renders, resolved.
  destruct (ipqsKey (script_args E)); [contradiction|].
  now rewrite Hscore.
Qed.

Lemma getRiskScore_ipqs_first_witness :
  fst (getRiskScore Scenario.ipqs_150 Scenario.ip Scenario.fresh)
  = Ok {| score := VNum (Num.of_N 150); source := VStr (lit "IPQS") |}
  /\ List.length
       (trace (snd (getRiskScore Scenario.ipqs_150 Scenario.ip Scenario.fresh)))
     = 2%nat.
Proof.
  rewrite (getRiskScore_ipqs_first Scenario.ipqs_150 Scenario.fresh
             Scenario.ip (VNum (Num.of_N 150)));
    [split; reflexivity | reflexivity | discriminate | reflexivity].
Defined.

(** X10.  [getRiskScore].  When tier 1 is skipped or gives no score and the
    ProxyCheck answer carries a [risk] for the address, both ProxyCheck and
    Scamalytics have been requested, and the Scamalytics page is then
    ignored, whatever it says: the entry written is that risk with source
    ProxyCheck, and it is the result when it can be rendered. *)
Theorem getRiskScore_proxycheck_over_scamalytics (E : env) (h : host)
    (A : jstring) (risk : value) :
  cache_check E (store h !! CONFIG.riskCache) A = None ->
  ipqsKey (script_args E) = []
  \/ (ipqs_score (ipqs_answer E A) = None
      /\ forallb printable (ipqs_fallback_logged (ipqs_answer E A)) = true) ->
  proxycheck_score (proxycheck_answer E A) A = Some risk ->
  let text :=
    JSON_stringify E
      (VObj [(lit "ip", VStr A); (lit "score", risk);
             (lit "source", VStr (lit "ProxyCheck"))]) in
  let requests :=
    match ipqsKey (script_args E) with
    | [] => []
    | key => [EvHttp (CONFIG.ipqs key A) None]
    end ++ [EvHttp (CONFIG.proxyCheck A) None;
            EvHttp (CONFIG.scamalytics A) None] in
  getRiskScore E A h
  = (if printable risk
     then Ok {| score := risk; source := VStr (lit "ProxyCheck") |}
     else Throw TypeError,
     {| store := <[CONFIG.riskCache := text]> (store h);
        trace := trace h ++ requests ++ [EvStoreWrite text CONFIG.riskCache] |}).
Proof.
  intros Hmiss Htier1 Hproxy text requests.
  rewrite (getRiskScore_miss _ _ _ Hmiss).
  unfold fallback_renders, resolved, resolved23, requests. rewrite Hproxy.
  destruct (ipqsKey (script_args E)) as [|k key].
  - reflexivity.
  - destruct Htier1 as [Hkey | [-> ->]]; [discriminate | reflexivity].
Qed.

Lemma getRiskScore_proxycheck_over_scamalytics_witness :
  parseScamalyticsScore (scamalytics_answer Samples.both_answer Scenario.ip)
  = Some (Num.of_N 10)
  /\ fst (getRiskScore Samples.both_answer Scenario.ip Scenario.fresh)
     = Ok {| score := VNum (Num.of_N 66); source := VStr (lit "ProxyCheck") |}.
Proof.
  split; [reflexivity|].
  rewrite (getRiskScore_proxycheck_over_scamalytics Samples.both_answer
             Scenario.fresh Scenario.ip (VNum (Num.of_N 66)));
    [reflexivity | reflexivity | now left | reflexivity].
Defined.

(** X11.  [getRiskScore].  The cache holds the last address only.  When the
    persisted entry is for another address [B], a query for [A] misses; when
    it returns, the entry of [A] has replaced the one of [B], so that (with
    a [JSON.parse] that gives back what [JSON.stringify] wrote) a later
    query for [B] misses too. *)
Theorem getRiskScore_cache_last_address (E : env) (h : host)
    (A B cached : jstring) (c : value) :
  nonempty (store h !! CONFIG.riskCache) = Some cached ->
  JSON_parse E cached = Some c ->
  get c (lit "ip") = VStr B ->
  B <> A ->
  cache_check E (store h !! CONFIG.riskCache) A = None
  /\ forall r h',
       getRiskScore E A h = (Ok r, h') ->
       let entry := VObj [(lit "ip", VStr A); (lit "score", score r);
                          (lit "source", source r)] in
       store h' !! CONFIG.riskCache = Some (JSON_stringify E entry)
       /\ (JSON_parse E (JSON_stringify E entry) = Some entry ->
           cache_check E (store h' !! CONFIG.riskCache) B = None).
Proof.
  intros Hcached Hparse Hip Hne.
  assert (Hneq : forall x y : jstring,
             x <> y -> strict_eq (VStr x) (VStr y) = false).
  { intros x y Hxy. simpl. destruct (JStr.eqb x y) eqn:Heq; [|reflexivity].
    apply jstr_eqb_eq in Heq. contradiction. }
  assert (Hmiss : cache_check E (store h !! CONFIG.riskCache) A = None).
  { unfold cache_check, cache_try.
    rewrite Hcached, Hparse, Hip, (Hneq _ _ Hne). now destruct c. }
  split; [exact Hmiss|].
  intros r h' Hrun entry. rewrite (getRiskScore_miss _ _ _ Hmiss) in Hrun.
  destruct (fallback_renders E A); [|discriminate].
  injection Hrun as Hsaved <-. apply saved_ok in Hsaved as [-> _].
  unfold cached_host. cbn [store]. rewrite lookup_insert_eq.
  split; [reflexivity|].
  intros Hback. unfold cache_check, cache_try, nonempty.
  change (JSON_parse E
            (JSON_stringify E
               (cache_entry A (score (fst (resolved E A)))
                  (source (fst (resolved E A)))))
          = Some (cache_entry A (score (fst (resolved E A)))
                    (source (fst (resolved E A))))) in Hback.
  destruct (JSON_stringify E _) as [|x s] eqn:Hs; [reflexivity|].
  rewrite Hback.
  unfold cache_entry, nullish, get, assoc.
  cbn [is_undefined is_null orb].
  change (JStr.eqb (lit "ip") (lit "ip")) with true. cbv iota.
  rewrite (Hneq A B); [reflexivity | congruence].
Qed.

Lemma getRiskScore_cache_last_address_witness :
  cache_check Scenario.offline
    (store Scenario.warm !! CONFIG.riskCache) Samples.elsewhere = None
  /\ cache_check Scenario.offline
       (store (snd (getRiskScore Scenario.offline Samples.elsewhere
                      Scenario.warm)) !! CONFIG.riskCache) Scenario.ip
     = None.
Proof.
  destruct (getRiskScore_cache_last_address Scenario.offline Scenario.warm
              Samples.elsewhere Scenario.ip Scenario.cached_text
              (cache_entry Scenario.ip (VNum (Num.of_N 12))
                 (VStr (lit "IPQS"))))
    as [Hmiss Hnext]; try reflexivity.
  - discriminate.
  - split; [exact Hmiss|].
    apply (Hnext {| score := VNum (Num.of_N 50);
                    source := VStr (lit "Default") |});
      reflexivity.
Defined.

(** X12.  [getRiskScore], the cache check.  A cache that cannot be used is
    absorbed as a miss and raises nothing by itself: an empty text, a text
    that does not parse, one that parses to [null], and an entry for the
    queried address whose score or source cannot be rendered on the log line
    all give the result and the host calls of a run that starts with no
    cache entry at all. *)
Theorem getRiskScore_corrupt_cache (E : env) (h : host) (A cached : jstring) :
  store h !! CONFIG.riskCache = Some cached ->
  cached = []
  \/ JSON_parse E cached = None
  \/ JSON_parse E cached = Some VNull
  \/ (exists c, JSON_parse E cached = Some c
                /\ get c (lit "ip") = VStr A
                /\ (printable (get c (lit "score")) = false
                    \/ printable (get c (lit "source")) = false)) ->
  let cleared := {| store := delete CONFIG.riskCache (store h);
                    trace := trace h |} in
  fst (getRiskScore E A h) = fst (getRiskScore E A cleared)
  /\ trace (snd (getRiskScore E A h)) = trace (snd (getRiskScore E A cleared)).
Proof.
  intros Hcached Hbad cleared.
  assert (Hmiss : cache_check E (store h !! CONFIG.riskCache) A = None).
  { rewrite Hcached.
    destruct Hbad as [-> | Hbad]; [reflexivity|].
    destruct cached as [|x s] eqn:Hc; [reflexivity|]. rewrite <- Hc in *.
    assert (Hne : nonempty (Some cached) = Some cached) by now rewrite Hc.
    destruct Hbad as [Hbad | [Hbad | (c & Hparse & Hip & Hodd)]].
    - unfold cache_check, cache_try. now rewrite Hne, Hbad.
    - unfold cache_check, cache_try. now rewrite Hne, Hbad.
    - rewrite (cache_check_parsed _ _ _ _ _ Hne Hparse Hip).
      destruct Hodd as [-> | ->]; [reflexivity | now rewrite andb_false_r]. }
  assert (Hmiss' : cache_check E (store cleared !! CONFIG.riskCache) A = None).
  { unfold cleared. cbn [store]. now rewrite lookup_delete_eq. }
  rewrite (getRiskScore_miss _ _ _ Hmiss), (getRiskScore_miss _ _ _ Hmiss').
  destruct (fallback_renders E A); split; reflexivity.
Qed.

Lemma getRiskScore_corrupt_cache_witness :
  fst (getRiskScore Scenario.offline Scenario.ip Samples.torn_cache)
  = Ok {| score := VNum (Num.of_N 50); source := VStr (lit "Default") |}
  /\ fst (getRiskScore Scenario.offline Scenario.ip Scenario.odd_cache)
     = Ok {| score := VNum (Num.of_N 50); source := VStr (lit "Default") |}.
Proof.
  split.
  - rewrite (proj1 (getRiskScore_corrupt_cache Scenario.offline
                      Samples.torn_cache Scenario.ip (lit "{oops") eq_refl
                      (or_intror (or_introl eq_refl)))).
    reflexivity.
  - rewrite (proj1 (getRiskScore_corrupt_cache Scenario.offline
                      Scenario.odd_cache Scenario.ip Scenario.odd_text eq_refl
                      (or_intror (or_intror (or_intror
                         (ex_intro _ _
                            (conj eq_refl (conj eq_refl
                               (or_introl eq_refl))))))))).
    reflexivity.
Defined.

(** ** What the resolvers leave alone *)

Lemma write_count_snoc (evs : list event) (data key : jstring) :
  forallb is_http evs = true ->
  List.filter is_write (evs ++ [EvStoreWrite data key])
  = [EvStoreWrite data key].
Proof.
  intros Hhttp. rewrite List.filter_app. simpl.
  replace (List.filter is_write evs) with (@nil event); [reflexivity|].
  symmetry. induction evs as [|e evs IH]; [reflexivity|].
  simpl in Hhttp. apply andb_true_iff in Hhttp as [He Hevs].
  destruct e; try discriminate. simpl. auto.
Qed.

Lemma resolved_requests (E : env) (ip : jstring) :
  forallb is_http (snd (resolved E ip)) = true.
Proof.
  unfold resolved. destruct (ipqsKey (script_args E)); [reflexivity|].
  now destruct (ipqs_score _).
Qed.

(** X13.  [getRiskScore].  Whatever the outcome, a call touches no key of the
    store but the risk cache, only adds to the trace of host calls, and
    writes at most once, to the risk cache: nothing on a hit, and on a miss
    that returns a result exactly the entry of that result. *)
Theorem getRiskScore_frame (E : env) (h h' : host) (ip : jstring)
    (out : result risk) :
  getRiskScore E ip h = (out, h') ->
  (forall k, k <> CONFIG.riskCache -> store h' !! k = store h !! k)
  /\ exists evs,
       trace h' = trace h ++ evs
       /\ (List.filter is_write evs = [] /\ store h' = store h
           \/ exists text,
                List.filter is_write evs
                = [EvStoreWrite text CONFIG.riskCache]
                /\ store h' = <[CONFIG.riskCache := text]> (store h)
                /\ forall r, out = Ok r ->
                     text = JSON_stringify E
                              (VObj [(lit "ip", VStr ip);
                                     (lit "score", score r);
                                     (lit "source", source r)])).
Proof.
  destruct (cache_check E (store h !! CONFIG.riskCache) ip) as [c|] eqn:Hc.
  - rewrite (getRiskScore_hit _ _ _ _ Hc). intros Hrun; injection Hrun as <- <-.
    split; [reflexivity|]. exists []. rewrite app_nil_r. auto.
  - rewrite (getRiskScore_miss _ _ _ Hc).
    destruct (fallback_renders E ip); intros Hrun; injection Hrun as <- <-.
    + split.
      * intros k Hk. unfold cached_host. cbn [store].
        now rewrite lookup_insert_ne by congruence.
      * eexists. split; [reflexivity|]. right. eexists.
        split; [apply write_count_snoc, resolved_requests|].
        split; [reflexivity|].
        intros r Hr. apply saved_ok in Hr as [-> _]. reflexivity.
    + split; [reflexivity|]. eexists. split; [reflexivity|]. now left.
Qed.

Lemma getRiskScore_frame_witness :
  store (snd (getRiskScore Scenario.scam_999 Scenario.ip Scenario.remembered))
    !! CONFIG.lastPolicy
  = Some (lit "Osaka").
Proof.
  destruct (getRiskScore_frame Scenario.scam_999 Scenario.remembered
              (snd (getRiskScore Scenario.scam_999 Scenario.ip
                      Scenario.remembered))
              Scenario.ip
              (fst (getRiskScore Scenario.scam_999 Scenario.ip
                      Scenario.remembered)))
    as [Hkeys _]; [reflexivity|].
  rewrite Hkeys; [reflexivity|].
  intros Heq. vm_compute in Heq. discriminate Heq.
Defined.

(** X14.  [getPolicy], [checkIPChange], [getIPType], [fetchIPs].  Each
    resolver keeps to its own key of the store: [getPolicy] touches no key
    but the last policy, [checkIPChange] no key but the last event, and
    [getIPType] and [fetchIPs] leave the whole store as it was. *)
Theorem store_frames (E : env) (h : host) :
  (forall k, k <> CONFIG.lastPolicy ->
     store (snd (getPolicy E h)) !! k = store h !! k)
  /\ (forall i o v k, k <> CONFIG.lastEvent ->
        store (snd (checkIPChange E i o v h)) !! k = store h !! k)
  /\ store (snd (getIPType E h)) = store h
  /\ store (snd (fetchIPs E h)) = store h.
Proof.
  repeat split.
  - intros k Hk. rewrite getPolicy_unfold.
    destruct (policy_in probe_pattern 10 _);
      [|destruct (policy_in probe_pattern 5 _)];
      unfold persist_policy, observe; cbn [snd store];
      try reflexivity; now rewrite lookup_insert_ne by congruence.
  - intros i o v k Hk.
    destruct (checkIPChange E i o v h) as [r h'] eqn:Hrun.
    destruct (checkIPChange_writes_only_on_change _ _ _ _ _ _ _ Hrun)
      as [-> | (_ & _ & _ & ->)]; [reflexivity|].
    unfold snapshot_host. cbn [snd store].
    now rewrite lookup_insert_ne by congruence.
  - destruct (is_undefined (get (parse_body E (http_get E None CONFIG.ipType))
                                (lit "isResidential"))) eqn:Hfield.
    + rewrite getIPType_tier2; [reflexivity|].
      now destruct (get _ (lit "isResidential")).
    + rewrite getIPType_tier1; [reflexivity|].
      intros Habs. now rewrite Habs in Hfield.
  - rewrite fetchIPs_run.
    destruct (truthy _); [destruct (includes_colon _)|]; reflexivity.
Qed.

Lemma store_frames_witness :
  store (snd (getPolicy Scenario.log_at_once Scenario.warm)) !! CONFIG.riskCache
  = Some Scenario.cached_text.
Proof.
  destruct (store_frames Scenario.log_at_once Scenario.warm) as [Hpolicy _].
  rewrite Hpolicy; [reflexivity|].
  intros Heq. vm_compute in Heq. discriminate Heq.
Defined.


(** ** Change detection: first event and damaged snapshots *)

(** X15.  [checkIPChange].  With no usable snapshot (none persisted, an empty
    text, or a text that does not parse) an event with a string inbound
    address always counts as a change: [true] is returned and the snapshot
    is written. *)
Theorem checkIPChange_without_snapshot (E : env) (h : host) (a : jstring)
    (o v : value) :
  isEvent (script_args E) = true ->
  (forall s, nonempty (store h !! CONFIG.lastEvent) = Some s ->
             JSON_parse E s = None) ->
  checkIPChange E (VStr a) o v h
  = (Ok true, snapshot_host E (VStr a) o v h).
Proof.
  intros Hevent Hnone.
  assert (Hlast : last_data E (store h !! CONFIG.lastEvent) = VObj []).
  { unfold last_data.
    destruct (nonempty (store h !! CONFIG.lastEvent)) as [s|] eqn:Hs;
      [|reflexivity].
    now rewrite (Hnone s eq_refl). }
  rewrite checkIPChange_run by (try assumption; now rewrite Hlast).
  unfold unchanged. now rewrite Hlast.
Qed.

Lemma checkIPChange_without_snapshot_witness :
  fst (checkIPChange Scenario.offline_event (VStr (lit "10.0.0.2"))
         (VStr Scenario.ip) VNull Scenario.fresh)
  = Ok true.
Proof.
  rewrite (checkIPChange_without_snapshot Scenario.offline_event
             Scenario.fresh (lit "10.0.0.2") (VStr Scenario.ip) VNull).
  - reflexivity.
  - reflexivity.
  - intros s Hs. discriminate Hs.
Defined.

(** X16.  [checkIPChange].  A persisted snapshot text that parses to [null]
    is not absorbed: the guarded parse succeeds, the comparison then reads a
    member of [null], and [checkIPChange] raises a TypeError without
    writing. *)
Theorem checkIPChange_null_snapshot (E : env) (h : host) (s : jstring)
    (i o v : value) :
  isEvent (script_args E) = true ->
  nonempty (store h !! CONFIG.lastEvent) = Some s ->
  JSON_parse E s = Some VNull ->
  checkIPChange E i o v h = (Throw TypeError, h).
Proof.
  intros Hevent Hs Hnull.
  unfold checkIPChange, bind, store_read, throw.
  rewrite Hevent. cbn [negb]. unfold last_data. now rewrite Hs, Hnull.
Qed.

Lemma checkIPChange_null_snapshot_witness :
  checkIPChange Scenario.offline_event (VStr (lit "10.0.0.2"))
    (VStr Scenario.ip) VNull Samples.null_snapshot
  = (Throw TypeError, Samples.null_snapshot).
Proof.
  apply (checkIPChange_null_snapshot Scenario.offline_event
           Samples.null_snapshot (lit "null"));
    reflexivity.
Defined.

(** ** Address acquisition: the race and odd answers *)

(** X17.  [fetchIPs].  When the timer wins the race there is no v6 address
    and no v6 payload, whatever the v6 endpoint would have answered, and
    [fetchIPs] returns normally. *)
Theorem fetchIPs_timer_wins (E : env) (h : host) :
  v6_in_time E = false ->
  exists r h', fetchIPs E h = (Ok r, h')
               /\ outIPv6 r = VNull /\ v6Raw r = VNull.
Proof.
  intros Hlate. rewrite fetchIPs_run.
  unfold v6_answer, race_v6. rewrite Hlate.
  change (opt_get VNull (lit "ip")) with VUndefined. cbn [truthy].
  do 2 eexists. split; [reflexivity|]. split; reflexivity.
Qed.

Lemma fetchIPs_timer_wins_witness :
  exists r h', fetchIPs Samples.v6_late Scenario.fresh = (Ok r, h')
               /\ outIPv6 r = VNull /\ v6Raw r = VNull.
Proof.
  apply (fetchIPs_timer_wins Samples.v6_late Scenario.fresh). reflexivity.
Defined.

(** X18.  [fetchIPs].  A v6 answer whose [ip] is truthy but neither a string
    nor an array (a number, [true], an object) makes [fetchIPs] raise a
    TypeError: such a value has no [includes] to call.  The three requests
    and the timer have been started by then. *)
Theorem fetchIPs_odd_v6_ip (E : env) (h : host) :
  let v6ip := opt_get (v6_answer E) (lit "ip") in
  truthy v6ip = true ->
  (forall s, v6ip <> VStr s) ->
  (forall l, v6ip <> VArr l) ->
  fetchIPs E h
  = (Throw TypeError,
     observe [EvHttp CONFIG.inboundIP (Some (lit "DIRECT"));
              EvHttp CONFIG.outboundIP None;
              EvHttp CONFIG.outboundIPv6 None;
              EvWait CONFIG.ipv6Timeout] h).
Proof.
  intros v6ip Htruthy Hstr Harr. rewrite fetchIPs_run. fold v6ip.
  rewrite Htruthy.
  destruct v6ip; try reflexivity;
    [now contradiction (Hstr s) | now contradiction (Harr elems)].
Qed.

Lemma fetchIPs_odd_v6_ip_witness :
  fst (fetchIPs Samples.v6_number Scenario.fresh) = Throw TypeError.
Proof.
  rewrite (fetchIPs_odd_v6_ip Samples.v6_number Scenario.fresh).
  - reflexivity.
  - reflexivity.
  - intros s Hs. vm_compute in Hs. discriminate Hs.
  - intros l Hl. vm_compute in Hl. discriminate Hl.
Defined.

(** ** Risk levels are ordered *)

Lemma find_index_find {A} (f : A -> bool) (l : list A) :
  find f l = match find_index f l with
             | Some i => nth_error l i
             | None => None
             end.
Proof.
  induction l as [|x l IH]; simpl; [reflexivity|].
  destruct (f x); [reflexivity|]. rewrite IH.
  now destruct (find_index f l).
Qed.

Lemma find_index_mono {A} (f g : A -> bool) (l : list A) (i : nat) :
  (forall x, g x = true -> f x = true) ->
  find_index g l = Some i ->
  exists j, find_index f l = Some j /\ (j <= i)%nat.
Proof.
  intros Hfg. revert i; induction l as [|x l IH]; intros i; simpl;
    [discriminate|].
  destruct (f x) eqn:Hf.
  - intros _. exists O. split; [reflexivity | lia].
  - destruct (g x) eqn:Hg; [now rewrite (Hfg x Hg) in Hf|].
    destruct (find_index g l) as [k|]; [|discriminate].
    intros Hi; injection Hi as <-.
    destruct (IH k eq_refl) as (j & -> & Hj). exists (S j). split; [reflexivity | lia].
Qed.

Lemma find_index_bound {A} (f : A -> bool) (l : list A) (i : nat) :
  find_index f l = Some i -> (i < List.length l)%nat.
Proof.
  revert i; induction l as [|x l IH]; intros i; simpl; [discriminate|].
  destruct (f x).
  - intros Hi; injection Hi as <-. lia.
  - destruct (find_index f l) as [k|]; [|discriminate].
    intros Hi; injection Hi as <-. specialize (IH k eq_refl). lia.
Qed.

(** X19.  [riskText] and [CONFIG.riskLevels].  [riskText] picks the level at
    position [risk_rank score] of [CONFIG.riskLevels], and that position
    never decreases when the score grows: a higher score never gets a
    cleaner label. *)
Theorem riskText_monotone :
  (forall s, option_map (fun l => Ok (text_of_level l))
               (nth_error CONFIG.riskLevels (risk_rank s))
             = Some (riskText s))
  /\ (forall s1 s2, Num.leb s1 s2 = true ->
                    (risk_rank s1 <= risk_rank s2)%nat).
Proof.
  split.
  - intros s. unfold risk_rank, riskText. rewrite find_index_find.
    destruct (find_index _ CONFIG.riskLevels) as [i|] eqn:Hi.
    + pose proof (find_index_bound _ _ _ Hi) as Hb.
      destruct (nth_error CONFIG.riskLevels i) eqn:Hn; [reflexivity|].
      apply nth_error_None in Hn. lia.
    + reflexivity.
  - intros s1 s2 Hle. unfold risk_rank.
    destruct (find_index (fun l => Num.leb s2 (CONFIG.max l)) CONFIG.riskLevels)
      as [i|] eqn:H2.
    + destruct (find_index_mono (fun l => Num.leb s1 (CONFIG.max l)) _ _ _
                  (fun l Hl => num_leb_trans _ _ _ Hle Hl) H2)
        as (j & -> & Hj).
      exact Hj.
    + destruct (find_index (fun l => Num.leb s1 (CONFIG.max l)) CONFIG.riskLevels)
        as [j|] eqn:H1; [|lia].
      apply find_index_bound in H1. lia.
Qed.

Lemma riskText_monotone_witness :
  (risk_rank (Num.of_N 10) <= risk_rank (Num.of_N 95))%nat.
Proof.
  apply (proj2 riskText_monotone). reflexivity.
Defined.

(** ** Normalizers *)

Lemma truthy_member (data : value) (k : jstring) :
  truthy (get data k) = true -> truthy data = true.
Proof.
  destruct data; simpl; try discriminate; try reflexivity.
  destruct s as [|c s]; [|reflexivity].
  destruct (JStr.eqb k (lit "length")); [discriminate|].
  destruct (index_of_key k) as [[|i]|]; discriminate.
Qed.

Lemma drop_while_app (f : N -> bool) (pre rest : jstring) :
  forallb f pre = true ->
  match rest with c :: _ => f c = false | [] => True end ->
  drop_while f (pre ++ rest) = rest.
Proof.
  intros Hpre Hrest. induction pre as [|c pre IH].
  - destruct rest as [|c rest]; [reflexivity|]. simpl. now rewrite Hrest.
  - simpl in Hpre. apply andb_true_iff in Hpre as [Hc Hpre].
    cbn [app drop_while]. rewrite Hc. auto.
Qed.

(** X21.  [normalizeIpInfo] removes an autonomous-system prefix from the
    carrier: for an [org] that reads AS, a run of digits [ds], a run of
    white space [ws] and then [name], the canonical [org] is [name]; the
    country code and the country name are both the [country] of the payload. *)
Theorem normalizeIpInfo_strips_as (data : value) (ds ws name : jstring) :
  truthy (get data (lit "country")) = true ->
  get data (lit "org") = VStr (lit "AS" ++ ds ++ ws ++ name) ->
  ds <> [] ->
  forallb is_digit ds = true ->
  forallb is_space ws = true ->
  match ws ++ name with c :: _ => is_digit c = false | [] => True end ->
  match name with c :: _ => is_space c = false | [] => True end ->
  exists c,
    normalizeIpInfo data = Ok (Some c)
    /\ c_org c = VStr name
    /\ c_country_code c = get data (lit "country")
    /\ c_country_name c = get data (lit "country").
Proof.
  intros Hcountry Horg Hne Hds Hws Hrun Hname.
  unfold normalizeIpInfo.
  rewrite (truthy_member _ _ Hcountry), Hcountry, Horg. cbn [negb orb].
  destruct ds as [|d ds]; [contradiction|].
  simpl in Hds. apply andb_true_iff in Hds as [Hd Hds].
  change (truthy (VStr (lit "AS" ++ (d :: ds) ++ ws ++ name))) with true.
  cbv iota. eexists. split; [reflexivity|]. cbn [c_org c_country_code c_country_name].
  repeat split.
  change (lit "AS" ++ (d :: ds) ++ ws ++ name)
    with (65 :: 83 :: d :: ds ++ ws ++ name).
  unfold strip_as. rewrite Hd.
  rewrite (drop_while_app is_digit ds (ws ++ name) Hds Hrun).
  now rewrite (drop_while_app is_space ws name Hws Hname).
Qed.

Lemma normalizeIpInfo_strips_as_witness :
  exists c,
    normalizeIpInfo Samples.ipinfo_google = Ok (Some c)
    /\ c_org c = VStr (lit "Google LLC")
    /\ c_country_code c = VStr (lit "US")
    /\ c_country_name c = VStr (lit "US").
Proof.
  apply (normalizeIpInfo_strips_as Samples.ipinfo_google (lit "15169")
           (lit " ") (lit "Google LLC"));
    try reflexivity.
  discriminate.
Defined.

Lemma join_texts_error (pieces : list (result jstring)) (e : error) :
  Forall (fun p => forall e', p = Throw e' -> e' = TypeError) pieces ->
  join_texts pieces = Throw e -> e = TypeError.
Proof.
  induction 1 as [|p pieces Hp _ IH]; [discriminate|].
  cbn [join_texts]. destruct p as [t | e'].
  - destruct pieces as [|q pieces]; [discriminate|].
    destruct (join_texts (q :: pieces)); [discriminate|].
    intros Hthrow; injection Hthrow as <-. now apply IH.
  - intros Hthrow; injection Hthrow as <-. now apply Hp.
Qed.

(** The only error a conversion to text raises is a TypeError. *)
Lemma to_string_error (number_text : num -> jstring) :
  forall (v : value) (e : error),
    to_string number_text v = Throw e -> e = TypeError.
Proof.
  fix IH 1. intros v e.
  destruct v as [| | [|] | n | s | l | ps]; cbn [to_string]; try discriminate.
  - apply join_texts_error.
    revert l. fix IHl 1. intros l.
    destruct l as [|x rest]; cbn [map]; constructor.
    + intros e' Hx. apply (IH x e').
      destruct x; try discriminate; exact Hx.
    + apply IHl.
  - destruct (own_toString ps); [|discriminate].
    now intros Hthrow; injection Hthrow as <-.
Qed.

(** X22.  [normalizeIpInfo] and the merge of the main function.  An ipinfo
    answer with a country and a truthy [org] that is not a string (a number,
    [true], an array, an object) is not absorbed: the normalizer raises, and
    so does the whole merge, in either language mode. *)
Theorem reconcile_odd_org (number_text : num -> jstring) (isZh hasV6 : bool)
    (r : raws) :
  truthy (get (outIpInfoRaw r) (lit "country")) = true ->
  truthy (get (outIpInfoRaw r) (lit "org")) = true ->
  (forall s, get (outIpInfoRaw r) (lit "org") <> VStr s) ->
  normalizeIpInfo (outIpInfoRaw r) = Throw TypeError
  /\ reconcile number_text isZh hasV6 r = Throw TypeError.
Proof.
  intros Hcountry Horg Hnot.
  assert (Hthrow : normalizeIpInfo (outIpInfoRaw r) = Throw TypeError).
  { unfold normalizeIpInfo.
    rewrite (truthy_member _ _ Hcountry), Hcountry, Horg. cbn [negb orb].
    destruct (get (outIpInfoRaw r) (lit "org")); try reflexivity.
    now contradiction (Hnot s). }
  split; [exact Hthrow|].
  assert (Hbili : forall v, (exists o, normalizeBilibili number_text v = Ok o)
                            \/ normalizeBilibili number_text v = Throw TypeError).
  { intros v. unfold normalizeBilibili.
    destruct (negb _ || negb _); [left; eauto|].
    destruct (to_string number_text _) as [t | e] eqn:Ht; [left; eauto|].
    right. f_equal. now apply (to_string_error _ _ _ Ht). }
  unfold reconcile. destruct isZh.
  - destruct (Hbili (inRaw_ r)) as [[o1 ->] | ->]; [|reflexivity].
    cbn [rbind].
    destruct (Hbili (outBiliRaw r)) as [[o2 ->] | ->]; [|reflexivity].
    cbn [rbind]. now rewrite Hthrow.
  - now rewrite Hthrow.
Qed.

Lemma reconcile_odd_org_witness :
  normalizeIpInfo (outIpInfoRaw Samples.odd_org) = Throw TypeError
  /\ reconcile MiniJSON.write_num false false Samples.odd_org
     = Throw TypeError.
Proof.
  apply (reconcile_odd_org MiniJSON.write_num false false Samples.odd_org);
    try reflexivity.
  intros s Hs. vm_compute in Hs. discriminate Hs.
Defined.

(** ** Rendering a value *)



(** ** Reconciliation *)

(** Walk through the normalizer calls of a merge that returned. *)
Ltac merge_steps H :=
  repeat (cbn [rbind] in H;
          match type of H with
          | rbind ?x _ = Ok _ =>
            let o := fresh "o" in destruct x as [o|]; [|discriminate]
          end);
  cbn [rbind] in H.

(** X23.  The merge of the main function and [normalizeBilibili].  In
    local-language mode, when bilibili knows the outbound address, the
    merged record takes the country name, city and region from bilibili; its
    country code is never bilibili's [null] but the code of ipinfo, else of
    ip.sb, else the empty string; and when the country name is 中國 the
    carrier is bilibili's own. *)
Theorem reconcile_zh_outbound (number_text : num -> jstring) (hasV6 : bool)
    (r : raws) (m : merged) (b : canon) (ipinfo : option canon) :
  reconcile number_text true hasV6 r = Ok m ->
  normalizeBilibili number_text (outBiliRaw r) = Ok (Some b) ->
  normalizeIpInfo (outIpInfoRaw r) = Ok ipinfo ->
  exists c,
    outInfo m = Some c
    /\ c_country_name c = c_country_name b
    /\ c_city c = c_city b
    /\ c_region c = c_region b
    /\ (truthy (c_country_code c) = true \/ c_country_code c = VStr [])
    /\ (truthy (cfield c_country_code ipinfo) = true ->
        c_country_code c = cfield c_country_code ipinfo)
    /\ (truthy (cfield c_country_code ipinfo) = false ->
        truthy (cfield c_country_code (normalizeIpSb (outRaw_ r))) = true ->
        c_country_code c = cfield c_country_code (normalizeIpSb (outRaw_ r)))
    /\ (c_country_name b = VStr (lit "中國") -> c_org c = c_org b).
Proof.
  intros Hrun Hbili Hipinfo. unfold reconcile in Hrun.
  rewrite Hbili, Hipinfo in Hrun. merge_steps Hrun.
  injection Hrun as <-. cbn [outInfo].
  eexists. split; [reflexivity|].
  unfold localized. cbn [c_country_code c_country_name c_city c_region c_org].
  repeat split.
  - unfold or_else.
    destruct (truthy (cfield c_country_code ipinfo)) eqn:H1; [now left|].
    destruct (truthy (cfield c_country_code (normalizeIpSb (outRaw_ r)))) eqn:H2;
      [now left | now right].
  - intros H1. unfold or_else. now rewrite H1.
  - intros H1 H2. unfold or_else. now rewrite H1, H2.
  - intros ->. now rewrite strict_eq_str.
Qed.

Lemma reconcile_zh_outbound_witness :
  exists c,
    outInfo {| inInfo := None;
               outInfo :=
                 Some {| c_country_code := VStr (lit "JP");
                         c_country_name := VStr (lit "日本");
                         c_city := VStr (lit "東京");
                         c_region := VStr (lit "東京都");
                         c_org := VStr (lit "NTT Communications") |};
               ipv6Info := None |} = Some c
    /\ c_country_name c = VStr (lit "日本")
    /\ c_city c = VStr (lit "東京")
    /\ c_region c = VStr (lit "東京都")
    /\ c_country_code c = VStr (lit "JP").
Proof.
  destruct (reconcile_zh_outbound MiniJSON.write_num false Samples.tokyo
              {| inInfo := None;
                 outInfo :=
                   Some {| c_country_code := VStr (lit "JP");
                           c_country_name := VStr (lit "日本");
                           c_city := VStr (lit "東京");
                           c_region := VStr (lit "東京都");
                           c_org := VStr (lit "NTT Communications") |};
                 ipv6Info := None |}
              {| c_country_code := VNull;
                 c_country_name := VStr (lit "日本");
                 c_city := VStr (lit "東京");
                 c_region := VStr (lit "東京都");
                 c_org := VStr (lit "NTT") |}
              (Some {| c_country_code := VStr (lit "JP");
                       c_country_name := VStr (lit "JP");
                       c_city := VUndefined;
                       c_region := VUndefined;
                       c_org := VStr [] |})
              eq_refl eq_refl eq_refl)
    as (c & Hout & Hname & Hcity & Hregion & _ & Hcode & _).
  exists c. repeat split; try assumption.
  apply Hcode. reflexivity.
Defined.

(** X24.  The merge of the main function.  The two language modes fall back
    differently when ipinfo knows the country but not the carrier while
    ip.sb knows a carrier.  In primary-language mode the outbound record is
    ipinfo's as a whole and the carrier stays empty; in local-language mode,
    outside 中國, the carrier is filled in from ip.sb. *)
Theorem reconcile_fallback_granularity (number_text : num -> jstring)
    (hasV6 : bool) (r : raws) (ic sc : canon) :
  normalizeIpInfo (outIpInfoRaw r) = Ok (Some ic) ->
  truthy (c_org ic) = false ->
  normalizeIpSb (outRaw_ r) = Some sc ->
  truthy (c_org sc) = true ->
  (forall m, reconcile number_text false hasV6 r = Ok m -> outInfo m = Some ic)
  /\ (forall m b,
        reconcile number_text true hasV6 r = Ok m ->
        normalizeBilibili number_text (outBiliRaw r) = Ok (Some b) ->
        strict_eq (c_country_name b) (VStr (lit "中國")) = false ->
        exists c, outInfo m = Some c /\ c_org c = c_org sc).
Proof.
  intros Hipinfo Hnoorg Hsb Horg. split.
  - intros m Hrun. unfold reconcile in Hrun. rewrite Hipinfo in Hrun.
    merge_steps Hrun. now injection Hrun as <-.
  - intros m b Hrun Hbili Hforeign. unfold reconcile in Hrun.
    rewrite Hbili, Hipinfo, Hsb in Hrun. merge_steps Hrun.
    injection Hrun as <-. cbn [outInfo].
    eexists. split; [reflexivity|].
    unfold localized. cbn [c_org cfield]. rewrite Hforeign.
    unfold or_else. now rewrite Hnoorg, Horg.
Qed.

Lemma reconcile_fallback_granularity_witness :
  (forall m,
     reconcile MiniJSON.write_num false false Samples.tokyo = Ok m ->
     cfield c_org (outInfo m) = VStr [])
  /\ (forall m,
        reconcile MiniJSON.write_num true false Samples.tokyo = Ok m ->
        cfield c_org (outInfo m) = VStr (lit "NTT Communications")).
Proof.
  destruct (reconcile_fallback_granularity MiniJSON.write_num false
              Samples.tokyo
              {| c_country_code := VStr (lit "JP");
                 c_country_name := VStr (lit "JP");
                 c_city := VUndefined;
                 c_region := VUndefined;
                 c_org := VStr [] |}
              {| c_country_code := VStr (lit "JP");
                 c_country_name := VStr (lit "Japan");
                 c_city := VUndefined;
                 c_region := VUndefined;
                 c_org := VStr (lit "NTT Communications") |}
              eq_refl eq_refl eq_refl eq_refl)
    as [Hen Hzh].
  split.
  - intros m Hm. now rewrite (Hen m Hm).
  - intros m Hm.
    destruct (Hzh m _ Hm eq_refl eq_refl) as (c & Hc & Horg).
    rewrite Hc. exact Horg.
Defined.

(** ** The probes of the script *)

Lemma starts_with_ci_app (p a b : jstring) :
  starts_with_ci p a = true -> starts_with_ci p (a ++ b) = true.
Proof.
  revert a; induction p as [|x p IH]; intros a; [reflexivity|].
  destruct a as [|y a]; simpl; [discriminate|].
  intros Hxy. apply andb_true_iff in Hxy as [-> Hp]. simpl. auto.
Qed.

Lemma includes_ci_app (p a b : jstring) :
  includes_ci p a = true -> includes_ci p (a ++ b) = true.
Proof.
  induction a as [|y a IH]; intros Hp.
  - simpl in Hp. rewrite orb_false_r in Hp.
    destruct b; simpl; destruct p; try discriminate; reflexivity.
  - cbn [includes_ci] in Hp. apply orb_true_iff in Hp as [Hs | Hi].
    + change ((y :: a) ++ b) with (y :: a ++ b). cbn [includes_ci].
      change (y :: a ++ b) with ((y :: a) ++ b).
      now rewrite (starts_with_ci_app _ _ _ Hs).
    + change ((y :: a) ++ b) with (y :: a ++ b). cbn [includes_ci].
      rewrite (IH Hi). apply orb_true_r.
Qed.

(** X25.  [getPolicy] and [CONFIG.urls].  Policy discovery recognises the
    probes the script sends through the proxy, whatever the address in them:
    the outbound-v4 request, every ipinfo request and every ip.sb lookup.
    The outbound-v6 request is not one of them. *)
Theorem probe_pattern_requests (ip : jstring) :
  probe_pattern (URLS.ipInfo ip) = true
  /\ probe_pattern (URLS.inboundInfo ip) = true
  /\ probe_pattern CONFIG.outboundIP = true
  /\ probe_pattern CONFIG.outboundIPv6 = false.
Proof.
  repeat split; try reflexivity.
  unfold probe_pattern, URLS.ipInfo.
  rewrite (includes_ci_app (lit "ipinfo.io") (lit "https://ipinfo.io/"));
    [apply orb_true_r | reflexivity].
Qed.

(** ** Script arguments *)








(** ** Flags *)

Lemma regional_indicator (k : N) :
  k <= 25 -> units_of_codepoint (127462 + (65 + k) - 65) = [55356; 56806 + k].
Proof.
  intros Hk.
  assert (Hcp : 127462 + (65 + k) - 65 = 65536 + (60 * 1024 + (486 + k))) by lia.
  rewrite Hcp. unfold units_of_codepoint.
  replace (65536 + (60 * 1024 + (486 + k)) <? 65536) with false
    by (symmetry; apply N.ltb_ge; lia).
  replace (65536 + (60 * 1024 + (486 + k)) - 65536)
    with (486 + k + 60 * 1024) by lia.
  rewrite N.div_add by lia. rewrite N.Div0.mod_add.
  rewrite N.div_small by lia. rewrite N.mod_small by lia.
  replace (56320 + (486 + k)) with (56806 + k) by lia. reflexivity.
Qed.

(** X29.  [flag].  For a code of two upper-case Latin letters [flag] yields
    the two regional-indicator symbols of those letters, as four UTF-16
    units; the code TW is shown with the symbols of CN. *)
Theorem flag_letters (a b : N) :
  65 <= a <= 90 -> 65 <= b <= 90 ->
  flag (TStr [a; b])
  = if (a =? 84) && (b =? 87)
    then [55356; 56806 + 2; 55356; 56806 + 13]
    else [55356; 56806 + (a - 65); 55356; 56806 + (b - 65)].
Proof.
  intros Ha Hb. unfold flag. cbn [text_truthy].
  assert (Hup : forall c, 65 <= c <= 90 -> upper c = c).
  { intros c Hc. unfold upper.
    replace (97 <=? c) with false by (symmetry; apply N.leb_gt; lia).
    reflexivity. }
  cbn [map]. rewrite (Hup a Ha), (Hup b Hb).
  change (lit "TW") with [84; 87]. cbn [JStr.eqb].
  rewrite andb_true_r.
  destruct ((a =? 84) && (b =? 87)); [reflexivity|].
  cbn [map flat_map]. rewrite app_nil_r.
  replace a with (65 + (a - 65)) at 1 by lia.
  replace b with (65 + (b - 65)) at 1 by lia.
  rewrite !regional_indicator by lia. reflexivity.
Qed.

Lemma flag_letters_witness :
  flag (TStr (lit "US")) = lit "🇺🇸" /\ flag (TStr (lit "TW")) = lit "🇨🇳".
Proof.
  split.
  - change (lit "US") with [85; 83].
    rewrite (flag_letters 85 83); [reflexivity | lia | lia].
  - change (lit "TW") with [84; 87].
    rewrite (flag_letters 84 87); [reflexivity | lia | lia].
Defined.
